(** * Treasury analytics of [treasury_app.py]

    A shallow embedding of the analytics helpers ([compute_kpis],
    [balance_timeseries], [monthly_flows], [category_breakdown]), of the
    CSV import loop of [main], of the transaction store and of the
    settings, with the properties of the specification that they meet and
    the points where they differ from it.

    Modelling choices.
    - A data frame is the list of its rows, in row order; [df.empty] is the
      test for the empty list.
    - A [datetime.date] is its proleptic Gregorian ordinal
      ([date.toordinal()]); date comparison and date subtraction are those
      of the ordinals, and [d - timedelta(days=n)] is [d - n].
    - Amounts are Python floats in the source.  An amount is the rational
      that a finite float holds (infinite and NaN amounts are out of the
      model), and a sum of amounts is idealised as the exact sum ([Qc]):
      the rounding of a sum and the order of summation it depends on are
      out of the model.  The statements on sums say which amounts an
      output adds up; none of them equates sums that the code computes
      over different rows or in a different order.
    - The two divisions of [compute_kpis] are float divisions
      ([Num.float_div]): the operands are taken as binary64 floats and the
      quotient is rounded to the nearest float, to an infinity when it
      overflows.  [int()] truncates a finite float and raises on an
      infinity or a NaN ([Num.py_int_float]).
    - [date.today()] reads the system clock.  The clock is an explicit
      state: the sequence of dates that successive readings return.
    - An exception that the engine does not catch ends the run: a run is a
      partial function of the clock.
    - A pandas [groupby] aggregates the rows of each key in row order,
      returns the groups in ascending key order and leaves out the rows
      whose key is missing. *)

From Stdlib Require Import ZArith QArith Qcanon Qround List Bool String Ascii.
From Stdlib Require Import Sorting.Sorted Sorting.Permutation Lia.
From Stdlib Require Import DecimalString.
Import ListNotations.

Local Open Scope Z_scope.

(* ------------------------------------------------------------------ *)
(** * Numbers *)

Module Num.

Definition of_Z (z : Z) : Qc := Q2Qc (inject_Z z).

Definition ltb (a b : Qc) : bool :=
  match (a ?= b)%Qc with Lt => true | _ => false end.

Definition leb (a b : Qc) : bool :=
  match (a ?= b)%Qc with Gt => false | _ => true end.

(** Python's [int(x)] on a finite number: truncation toward zero. *)
Definition py_int (q : Qc) : Z := Z.quot (Qnum q) (Zpos (Qden q)).

(** [Series.sum()]: the running total starts at 0.  The sum is exact
    (see the modelling choices): the float sum of the code is this sum,
    rounded along the way. *)
Definition series_sum (l : list Qc) : Qc := fold_left Qcplus l 0%Qc.

(** [Series.cumsum()], exact as well. *)
Fixpoint cumsum_from (acc : Qc) (l : list Qc) : list Qc :=
  match l with
  | [] => []
  | a :: l' => (acc + a)%Qc :: cumsum_from (acc + a)%Qc l'
  end.

Definition cumsum (l : list Qc) : list Qc := cumsum_from 0%Qc l.

(** ** Floats (IEEE 754 binary64)

    A finite float is a rational [m * 2^e] with [|m| < 2^53] and
    [-1074 <= e <= 971].  The sign of a zero is not kept: the divisions
    of the engine never have a zero divisor, and the comparisons with 0
    do not see the sign. *)
Inductive fval := Finite (q : Qc) | Infinite (negative : bool) | NotANumber.

(** The integer nearest to [num / den], ties to even ([0 < den]). *)
Definition round_half_even (num den : Z) : Z :=
  let q := num / den in
  let r := num mod den in
  match 2 * r ?= den with
  | Lt => q
  | Gt => q + 1
  | Eq => if Z.even q then q else q + 1
  end.

(** The [k] with [2^k <= n / d < 2^(k+1)], for [0 < n] and [0 < d]. *)
Definition floor_log2 (n d : Z) : Z :=
  let k := Z.log2 n - Z.log2 d in
  if (if 0 <=? k then d * 2 ^ k <=? n else d <=? n * 2 ^ (- k))
  then k else k - 1.

(** The rational [m * 2^e]. *)
Definition scaled (m e : Z) : Qc :=
  if 0 <=? e then Q2Qc (inject_Z (m * 2 ^ e))
  else Q2Qc (m # Z.to_pos (2 ^ (- e))).

(** Rounding of [n / d], [0 < n] and [0 < d], to the nearest float, ties
    to even: 53 significant bits, the exponent not below that of the
    subnormal numbers, an infinity from [2^1024] on. *)
Definition round64_pos (n d : Z) : fval :=
  let e := Z.max (floor_log2 n d - 52) (-1074) in
  let m := if 0 <=? e then round_half_even n (d * 2 ^ e)
           else round_half_even (n * 2 ^ (- e)) d in
  if (0 <=? e) && (2 ^ 1024 <=? m * 2 ^ e) then Infinite false
  else Finite (scaled m e).

(** Unary minus. *)
Definition fopp (x : fval) : fval :=
  match x with
  | Finite q => Finite (- q)%Qc
  | Infinite s => Infinite (negb s)
  | NotANumber => NotANumber
  end.

(** The float nearest to a rational; a float is left as it is. *)
Definition round64 (q : Qc) : fval :=
  match Qnum q with
  | 0 => Finite 0%Qc
  | Zpos n => round64_pos (Zpos n) (Zpos (Qden q))
  | Zneg n => fopp (round64_pos (Zpos n) (Zpos (Qden q)))
  end.

Definition is_zero (q : Qc) : bool :=
  match Qnum q with 0 => true | _ => false end.

(** [x / y] on floats: the exact quotient, rounded.  A zero divisor gives
    an infinity or a NaN, as numpy has it. *)
Definition float_div (x y : fval) : fval :=
  match x, y with
  | Finite a, Finite b =>
      if is_zero b then
        if is_zero a then NotANumber else Infinite (ltb a 0%Qc)
      else round64 (a / b)%Qc
  | Finite _, Infinite _ => Finite 0%Qc
  | Infinite s, Finite b => Infinite (xorb s (ltb b 0%Qc))
  | _, _ => NotANumber
  end.

(** [x < 0] on a float; a comparison with a NaN is false. *)
Definition fneg (x : fval) : bool :=
  match x with
  | Finite q => ltb q 0%Qc
  | Infinite s => s
  | NotANumber => false
  end.

(** [int(x)] on a float: [OverflowError] on an infinity, [ValueError] on
    a NaN. *)
Definition py_int_float (x : fval) : option Z :=
  match x with
  | Finite q => Some (py_int q)
  | _ => None
  end.

(** [x.as_integer_ratio()]: the numerator and the denominator of a finite
    float, in lowest terms. *)
Definition as_integer_ratio (x : fval) : option (Z * positive) :=
  match x with
  | Finite q => Some (Qnum q, Qden q)
  | _ => None
  end.

End Num.

(* ------------------------------------------------------------------ *)
(** * Calendar ([datetime] of the Python library) *)

Module Calendar.

Definition date := Z.

Definition is_leap (year : Z) : bool :=
  (year mod 4 =? 0) && (negb (year mod 100 =? 0) || (year mod 400 =? 0)).

Definition days_before_year (year : Z) : Z :=
  let y := year - 1 in y * 365 + y / 4 - y / 100 + y / 400.

Definition DAYS_IN_MONTH (month : Z) : Z :=
  match month with
  | 1 => 31 | 2 => 28 | 3 => 31 | 4 => 30 | 5 => 31 | 6 => 30
  | 7 => 31 | 8 => 31 | 9 => 30 | 10 => 31 | 11 => 30 | 12 => 31
  | _ => -1
  end.

Definition DAYS_BEFORE_MONTH (month : Z) : Z :=
  match month with
  | 1 => 0 | 2 => 31 | 3 => 59 | 4 => 90 | 5 => 120 | 6 => 151
  | 7 => 181 | 8 => 212 | 9 => 243 | 10 => 273 | 11 => 304 | 12 => 334
  | _ => -1
  end.

Definition days_before_month (year month : Z) : Z :=
  DAYS_BEFORE_MONTH month + (if (2 <? month) && is_leap year then 1 else 0).

Definition ymd2ord (year month day : Z) : date :=
  days_before_year year + days_before_month year month + day.

Definition DI400Y := 146097.
Definition DI100Y := 36524.
Definition DI4Y := 1461.

Definition ord2ymd (n0 : date) : Z * Z * Z :=
  let n := n0 - 1 in
  let n400 := n / DI400Y in
  let n := n mod DI400Y in
  let year := n400 * 400 + 1 in
  let n100 := n / DI100Y in
  let n := n mod DI100Y in
  let n4 := n / DI4Y in
  let n := n mod DI4Y in
  let n1 := n / 365 in
  let n := n mod 365 in
  let year := year + n100 * 100 + n4 * 4 + n1 in
  if (n1 =? 4) || (n100 =? 4) then (year - 1, 12, 31)
  else
    let leapyear := (n1 =? 3) && (negb (n4 =? 24) || (n100 =? 3)) in
    let month := Z.shiftr (n + 50) 5 in
    let preceding :=
      DAYS_BEFORE_MONTH month + (if (2 <? month) && leapyear then 1 else 0) in
    if n <? preceding then
      let month := month - 1 in
      let preceding :=
        preceding
        - (DAYS_IN_MONTH month + (if (month =? 2) && leapyear then 1 else 0)) in
      (year, month, n - preceding + 1)
    else (year, month, n - preceding + 1).

(** [pd.to_datetime(d).to_period('M').to_timestamp()]: the first day of the
    month of [d]. *)
Definition month_start (d : date) : date :=
  let '(y, m, _) := ord2ymd d in ymd2ord y m 1.

End Calendar.

Import Calendar.

(* ------------------------------------------------------------------ *)
(** * The clock: a state and error monad *)

(** The dates that the next readings of [date.today()] return. *)
Definition Clock := nat -> date.

Definition M (A : Type) : Type := Clock -> option (A * Clock).

Definition ret {A} (a : A) : M A := fun c => Some (a, c).

Definition bind {A B} (m : M A) (k : A -> M B) : M B :=
  fun c => match m c with
           | Some (a, c') => k a c'
           | None => None
           end.

(** A Python exception that nothing catches inside the engine. *)
Definition raise {A} : M A := fun _ => None.

Definition lift {A} (o : option A) : M A :=
  match o with Some a => ret a | None => raise end.

Notation "x <- m ;; k" := (bind m (fun x => k))
  (at level 61, m at next level, right associativity).

Definition date_today : M date :=
  fun c => Some (c 0%nat, fun n => c (S n)).

(** The result of a run, without the clock that is left. *)
Definition result {A} (r : option (A * Clock)) : option A := option_map fst r.

Definition const_clock (today : date) : Clock := fun _ => today.

(* ------------------------------------------------------------------ *)
(** * Data model *)

(** A row of the [transactions] table as [fetch_transactions_df] reads it.
    [description], [category] and [account] are nullable text columns. *)
Record transaction := mkTransaction {
  id : Z;
  t_date : date;
  description : option string;
  category : option string;
  amount : Qc;
  account : option string
}.

Definition DataFrame := list transaction.

Definition df_empty (df : DataFrame) : bool :=
  match df with [] => true | _ => false end.

Definition amounts (df : DataFrame) : list Qc := map amount df.
Definition dates (df : DataFrame) : list date := map t_date df.

(** [min(series)] and [max(series)] (the builtins, iterating the column);
    they raise [ValueError] on an empty column. *)
Definition py_min (l : list Z) : option Z :=
  match l with [] => None | x :: xs => Some (fold_left Z.min xs x) end.

Definition py_max (l : list Z) : option Z :=
  match l with [] => None | x :: xs => Some (fold_left Z.max xs x) end.

(* ------------------------------------------------------------------ *)
(** * [compute_kpis] *)

Record KPI := mkKPI {
  current_balance : Qc;
  net_30d : Qc;
  avg_daily_burn : Num.fval;
  runway_days : option Z
}.

(** [compute_kpis(df, initial_balance)].  The two occurrences of
    [date.today()] are two readings of the clock.  The burn rate and the
    quotient of the runway are float quotients; [int()] raises when the
    quotient of the runway has overflowed. *)
Definition compute_kpis (df : DataFrame) (initial_balance : Qc) : M KPI :=
  if df_empty df then
    ret {| current_balance := initial_balance;
           net_30d := 0%Qc;
           avg_daily_burn := Num.Finite 0%Qc;
           runway_days := None |}
  else
    let current_balance := (initial_balance + Num.series_sum (amounts df))%Qc in
    today <- date_today ;;
    let cutoff := today - 30 in
    let recent := fun r => cutoff <=? t_date r in
    let net_30d := Num.series_sum (amounts (filter recent df)) in
    pd <- (if existsb recent df then
             let period_df := filter recent df in
             today' <- date_today ;;
             first <- lift (py_min (dates period_df)) ;;
             ret (period_df, today' - Z.max first cutoff + 1)
           else
             last <- lift (py_max (dates df)) ;;
             first <- lift (py_min (dates df)) ;;
             ret (df, Z.max (last - first + 1) 30)) ;;
    let '(period_df, days) := pd in
    let avg_daily_burn :=
      Num.float_div (Num.round64 (Num.series_sum (amounts period_df)))
                    (Num.round64 (Num.of_Z (Z.max days 1))) in
    runway_days <-
      (if Num.fneg avg_daily_burn then
         if Num.ltb 0%Qc current_balance then
           n <- lift (Num.py_int_float
                        (Num.float_div (Num.round64 current_balance)
                                       (Num.fopp avg_daily_burn))) ;;
           ret (Some n)
         else ret (Some 0)
       else ret None) ;;
    ret {| current_balance := current_balance;
           net_30d := net_30d;
           avg_daily_burn := avg_daily_burn;
           runway_days := runway_days |}.

(* ------------------------------------------------------------------ *)
(** * Grouping and sorting (pandas) *)

(** Keys of a [groupby]: a type with a total order given by a comparison. *)
Class KeyOrder (K : Type) := {
  kcmp : K -> K -> comparison;
  kcmp_eq : forall a b, kcmp a b = Eq -> a = b;
  kcmp_refl : forall a, kcmp a a = Eq;
  kcmp_antisym : forall a b, kcmp b a = CompOpp (kcmp a b);
  kcmp_trans : forall a b c, kcmp a b = Lt -> kcmp b c = Lt -> kcmp a c = Lt
}.

Definition klt {K} `{KeyOrder K} (a b : K) : Prop := kcmp a b = Lt.

Section GroupBy.
Context {K : Type} `{KeyOrder K}.

(** A series indexed by keys, kept in ascending key order. *)
Definition series (V : Type) := list (K * V).

Definition keys {V} (s : series V) : list K := map fst s.

Fixpoint lookup {V} (k : K) (s : series V) : option V :=
  match s with
  | [] => None
  | (k', v) :: s' =>
      match kcmp k k' with
      | Eq => Some v
      | _ => lookup k s'
      end
  end.

(** Add the value [v] of one row to the group [k]: a new group is opened
    at its place in key order, an existing one is updated with [f]. *)
Fixpoint upsert {V} (f : V -> V -> V) (k : K) (v : V) (s : series V)
  : series V :=
  match s with
  | [] => [(k, v)]
  | (k', v') :: s' =>
      match kcmp k k' with
      | Lt => (k, v) :: s
      | Eq => (k', f v' v) :: s'
      | Gt => (k', v') :: upsert f k v s'
      end
  end.

(** [rows.groupby(key)[val].agg(f)], groups in ascending key order
    ([sort=True]), rows of a group aggregated in row order. *)
Definition groupby_agg {R V} (f : V -> V -> V) (key : R -> K) (val : R -> V)
    (rows : list R) : series V :=
  fold_left (fun acc r => upsert f (key r) (val r) acc) rows [].

(** Union of two sorted indexes, as the [DataFrame] constructor aligns
    the series it is given. *)
Fixpoint insert_key (k : K) (l : list K) : list K :=
  match l with
  | [] => [k]
  | k' :: l' =>
      match kcmp k k' with
      | Lt => k :: l
      | Eq => l
      | Gt => k' :: insert_key k l'
      end
  end.

Definition index_union (a b : list K) : list K :=
  fold_left (fun acc k => insert_key k acc) b a.

End GroupBy.

Arguments series K V : clear implicits.

(** [groupby(key)[amount].sum()] and [groupby(key)[col].last()]. *)
Definition groupby_sum {K} `{KeyOrder K} {R} (key : R -> K) (val : R -> Qc)
    (rows : list R) : series K Qc :=
  groupby_agg Qcplus key val rows.

Definition groupby_last {K} `{KeyOrder K} {R V} (key : R -> K) (val : R -> V)
    (rows : list R) : series K V :=
  groupby_agg (fun _ new => new) key val rows.

Section Sort.
Context {A : Type} (le : A -> A -> bool).

(** [sort_values(col)], ascending.  pandas sorts with quicksort, which
    does not fix the order of rows with equal keys; the model takes a
    stable insertion sort, and the properties below use only that the
    result is a sorted permutation of the rows. *)
Fixpoint insert_sorted (x : A) (l : list A) : list A :=
  match l with
  | [] => [x]
  | y :: l' => if le x y then x :: l else y :: insert_sorted x l'
  end.

Definition sort_values (l : list A) : list A :=
  fold_right insert_sorted [] l.

End Sort.

(* ------------------------------------------------------------------ *)
(** * Key orders of the three groupings *)

#[global] Instance Z_KeyOrder : KeyOrder Z.
Proof.
  refine {| kcmp := Z.compare |}.
  - intros a b. apply Z.compare_eq_iff.
  - apply Z.compare_refl.
  - intros a b. apply Z.compare_antisym.
  - intros a b c. rewrite !Z.compare_lt_iff. lia.
Defined.

(** Python compares strings by code points, position by position. *)
#[global] Instance string_KeyOrder : KeyOrder string.
Proof.
  assert (Hrefl : forall a : ascii, Ascii.compare a a = Eq).
  { intros a. unfold Ascii.compare. apply N.compare_refl. }
  assert (Htrans : forall a b c : ascii,
            Ascii.compare a b = Lt -> Ascii.compare b c = Lt ->
            Ascii.compare a c = Lt).
  { intros a b c. unfold Ascii.compare. rewrite !N.compare_lt_iff. lia. }
  refine {| kcmp := String.compare; kcmp_eq := String.compare_eq_iff |}.
  - induction a as [|x a IH]; simpl; [reflexivity|]. now rewrite Hrefl.
  - intros a b. rewrite (String.compare_antisym a b).
    now destruct (String.compare b a).
  - induction a as [|x a IH]; intros [|y b] [|z c]; simpl;
      try discriminate; try reflexivity.
    destruct (Ascii.compare x y) eqn:Exy; try discriminate.
    + apply Ascii.compare_eq_iff in Exy. subst y.
      destruct (Ascii.compare x z) eqn:Exz; try discriminate; auto.
      intros. eapply IH; eauto.
    + intros _. destruct (Ascii.compare y z) eqn:Eyz; try discriminate.
      * apply Ascii.compare_eq_iff in Eyz. subst z. now rewrite Exy.
      * now rewrite (Htrans _ _ _ Exy Eyz).
Defined.

(* ------------------------------------------------------------------ *)
(** * [balance_timeseries], [monthly_flows], [category_breakdown] *)

(** [balance_timeseries(df, initial_balance)]: the [(date, balance)]
    rows of the frame [ts]. *)
Definition balance_timeseries (df : DataFrame) (initial_balance : Qc)
  : series date Qc :=
  if df_empty df then []
  else
    let tmp := sort_values (fun a b => t_date a <=? t_date b) df in
    let cum := map (fun c => (c + initial_balance)%Qc)
                   (Num.cumsum (amounts tmp)) in
    let tmp := combine tmp cum in
    groupby_last (fun rc => t_date (fst rc)) snd tmp.

(** A row of the frame that [monthly_flows] returns. *)
Record flow_row := mkFlow {
  month : date;
  inflow : Qc;
  outflow : Qc;
  net : Qc
}.

(** [fillna(0)] on one cell. *)
Definition fillna0 (o : option Qc) : Qc :=
  match o with Some v => v | None => 0%Qc end.

(** [monthly_flows(df)]: three grouped sums, aligned on the union of
    their months, a missing sum read as 0. *)
Definition monthly_flows (df : DataFrame) : list flow_row :=
  if df_empty df then []
  else
    let month_of := fun r => month_start (t_date r) in
    let inflow :=
      groupby_sum month_of amount (filter (fun r => Num.ltb 0%Qc (amount r)) df) in
    let outflow :=
      groupby_sum month_of amount (filter (fun r => Num.ltb (amount r) 0%Qc) df) in
    let net := groupby_sum month_of amount df in
    let index := index_union (index_union (keys inflow) (keys outflow)) (keys net) in
    map (fun m => {| month := m;
                     inflow := fillna0 (lookup m inflow);
                     outflow := fillna0 (lookup m outflow);
                     net := fillna0 (lookup m net) |}) index.

(** Rows whose group key is missing are left out of a [groupby]
    ([dropna=True], the default). *)
Fixpoint dropna_category (df : DataFrame) : list (string * Qc) :=
  match df with
  | [] => []
  | r :: df' =>
      match category r with
      | Some c => (c, amount r) :: dropna_category df'
      | None => dropna_category df'
      end
  end.

(** [category_breakdown(df)]: the [(category, amount)] rows, sorted by
    [amount]. *)
Definition category_breakdown (df : DataFrame) : series string Qc :=
  if df_empty df then []
  else
    let out := groupby_sum fst snd (dropna_category df) in
    sort_values (fun a b => Num.leb (snd a) (snd b)) out.

(* ------------------------------------------------------------------ *)
(** * CSV import (the loop of [main]) *)

(** A cell of a text column of the imported frame, as the loop reads it: a
    string, a number when [read_csv] has found the whole column numeric
    (with the text that SQLite stores for it in a text column), [NaN] for
    an empty field of the file, [None] in a column that the import added
    itself. *)
Inductive cell := CNone | CNaN | CText (s : string) | CNum (q : Qc) (text : string).

(** A cell of the [amount] column, as [float()] sees it: a finite number,
    [NaN] (refused by the [NOT NULL] column), or a value that [float()]
    rejects. *)
Inductive num_cell := ANum (q : Qc) | ANaN | ABad.

(** A row of the frame after [pd.to_datetime] has parsed the [date]
    column.  [r_account] is [None] when the file has no [account]
    column. *)
Record csv_row := mkRow {
  r_date : date;
  r_description : cell;
  r_category : cell;
  r_amount : num_cell;
  r_account : option cell
}.

(** Python truthiness: [None], the empty string and a zero are false,
    [NaN] is a non-zero float and so true. *)
Definition truthy (c : cell) : bool :=
  match c with
  | CNone => false
  | CNaN => true
  | CText s => negb (String.eqb s "")
  | CNum q _ => negb (Num.is_zero q)
  end.

Definition py_or (a b : cell) : cell := if truthy a then a else b.

(** [r.get('account')] after [imp['account'] = None] has filled a missing
    column. *)
Definition get_account (r : csv_row) : cell :=
  match r_account r with Some c => c | None => CNone end.

(** What SQLite stores in a text column: [None] and [NaN] become [NULL],
    a number becomes its text. *)
Definition sql_text (c : cell) : option string :=
  match c with
  | CText s => Some s
  | CNum _ s => Some s
  | CNone | CNaN => None
  end.

(** [float(r['amount'])] followed by the [NOT NULL] check of the insert:
    both failures are exceptions. *)
Definition py_float (a : num_cell) : option Qc :=
  match a with ANum q => Some q | _ => None end.

(** The [transactions] table with its [AUTOINCREMENT] counter. *)
Record db := mkDb {
  next_id : Z;
  table : list transaction
}.

(** [insert_transaction]: one [INSERT], with [account or 'Cash']. *)
Definition insert_transaction (st : db) (d : date)
    (description category : cell) (amount : Qc) (account : cell) : db :=
  {| next_id := next_id st + 1;
     table := table st ++
       [ mkTransaction (next_id st) d (sql_text description)
           (sql_text category) amount
           (sql_text (py_or account (CText "Cash"))) ] |}.

(** The loop over [imp.iterrows()].  An exception leaves the loop; the
    rows inserted before it stay committed.  The boolean tells whether the
    loop ran to its end. *)
Fixpoint import_rows (st : db) (rows : list csv_row) : db * bool :=
  match rows with
  | [] => (st, true)
  | r :: rows' =>
      match py_float (r_amount r) with
      | Some a =>
          import_rows
            (insert_transaction st (r_date r)
               (py_or (r_description r) (CText ""))
               (py_or (r_category r) (CText "Autre"))
               a
               (py_or (get_account r) (CText "Cash")))
            rows'
      | None => (st, false)
      end
  end.

(* ------------------------------------------------------------------ *)
(** * Vocabulary of the statements *)

(** The sum of a column, as a specification: by recursion on the rows. *)
Fixpoint total (l : list Qc) : Qc :=
  match l with
  | [] => 0%Qc
  | a :: l' => (a + total l')%Qc
  end.

Definition is_min (m : Z) (l : list Z) : Prop := In m l /\ Forall (fun x => m <= x) l.

Definition is_max (m : Z) (l : list Z) : Prop := In m l /\ Forall (fun x => x <= m) l.

(** The burn rate of a period of [days] days: a float quotient. *)
Definition burn_rate (period_df : DataFrame) (days : Z) : Num.fval :=
  Num.float_div (Num.round64 (Num.series_sum (amounts period_df)))
                (Num.round64 (Num.of_Z (Z.max days 1))).

(** The runway that follows from a balance and a burn rate: [None] when
    [int()] raises, [Some None] when there is no runway. *)
Definition runway_of (cb : Qc) (avg : Num.fval) : option (option Z) :=
  if Num.fneg avg then
    if Num.ltb 0%Qc cb then
      option_map Some
        (Num.py_int_float (Num.float_div (Num.round64 cb) (Num.fopp avg)))
    else Some (Some 0)
  else Some None.

(** The record that [compute_kpis] builds once the burn period and its
    number of days are known, when [int()] does not raise. *)
Definition kpi_record (df : DataFrame) (initial_balance : Qc) (cutoff : date)
    (period_df : DataFrame) (days : Z) : option KPI :=
  let cb := (initial_balance + Num.series_sum (amounts df))%Qc in
  let avg := burn_rate period_df days in
  option_map
    (fun rw =>
       {| current_balance := cb;
          net_30d :=
            Num.series_sum (amounts (filter (fun r => cutoff <=? t_date r) df));
          avg_daily_burn := avg;
          runway_days := rw |})
    (runway_of cb avg).

Definition empty_kpi (initial_balance : Qc) : KPI :=
  {| current_balance := initial_balance;
     net_30d := 0%Qc;
     avg_daily_burn := Num.Finite 0%Qc;
     runway_days := None |}.

(** The runway of a record that [compute_kpis] returns is decided by its
    balance and its burn rate alone. *)
Definition runway_rule (k : KPI) : Prop :=
  runway_of (current_balance k) (avg_daily_burn k) = Some (runway_days k).

(** A run that ends with the record [o], or with the exception that [o]
    stands for, and leaves the clock [c]. *)
Definition returned {A} (o : option A) (c : Clock) : option (A * Clock) :=
  option_map (fun a => (a, c)) o.

(** The burn period and its number of days, from the two readings of the
    clock: the recent records when there are some, counted from the first
    of them or from the cutoff to the second reading; otherwise the whole
    snapshot, counted as 30 days at least. *)
Definition burn_period (df : DataFrame) (c : Clock) (period : DataFrame)
    (days : Z) : Prop :=
  let cutoff := c 0%nat - 30 in
  let recent := fun r => cutoff <=? t_date r in
  (existsb recent df = true /\ period = filter recent df /\
   exists first, is_min first (dates period) /\
                 days = c 1%nat - Z.max first cutoff + 1)
  \/
  (existsb recent df = false /\ period = df /\
   exists first last, is_min first (dates df) /\ is_max last (dates df) /\
                      days = Z.max (last - first + 1) 30).

(** The burn rate of section 4.1 of the specification, which knows a
    single reference date [today]. *)
Definition spec_avg_daily_burn (df : DataFrame) (today : date)
  : option Num.fval :=
  let cutoff := today - 30 in
  let subset := filter (fun r => cutoff <=? t_date r) df in
  match subset with
  | _ :: _ =>
      option_map
        (fun first => burn_rate subset ((today - Z.max first cutoff) + 1))
        (py_min (dates subset))
  | [] =>
      match py_min (dates df), py_max (dates df) with
      | Some first, Some last =>
          Some (burn_rate df (Z.max ((last - first) + 1) 30))
      | _, _ => None
      end
  end.

Section GroupVocabulary.
Context {K : Type} `{KeyOrder K}.

Definition keqb (a b : K) : bool :=
  match kcmp a b with Eq => true | _ => false end.

(** Strictly ascending keys. *)
Definition ascending (l : list K) : Prop := StronglySorted klt l.

Section Agg.
Context {R V : Type} (f : V -> V -> V) (key : R -> K) (val : R -> V).

(** The aggregate of the rows of key [k], in row order, from [o]. *)
Definition agg_step (k : K) (o : option V) (r : R) : option V :=
  if keqb (key r) k then
    Some (match o with Some old => f old (val r) | None => val r end)
  else o.

Definition agg_from (k : K) (rows : list R) (o : option V) : option V :=
  fold_left (agg_step k) rows o.

Definition group_fold (rows : list R) (acc : series K V) : series K V :=
  fold_left (fun acc r => upsert f (key r) (val r) acc) rows acc.

End Agg.

Section Group.
Context {R : Type} (key : R -> K).

(** The rows of the group [k]. *)
Definition group (k : K) (rows : list R) : list R :=
  filter (fun r => keqb (key r) k) rows.

End Group.

End GroupVocabulary.

Section SortVocabulary.
Context {A : Type} (le : A -> A -> bool).

Definition le_prop (a b : A) : Prop := le a b = true.

End SortVocabulary.

Definition by_date (a b : transaction) : Prop := t_date a <= t_date b.

Definition by_amount (a b : string * Qc) : Prop := (snd a <= snd b)%Qc.

Definition month_of (r : transaction) : date := month_start (t_date r).

(** The year and the month of a date. *)
Definition year_month (d : date) : Z * Z :=
  let '(y, m, _) := ord2ymd d in (y, m).

(** A record of the category [c]. *)
Definition has_category (c : string) (r : transaction) : bool :=
  match category r with
  | Some c' => String.eqb c' c
  | None => false
  end.

(** A record with a category. *)
Definition categorized (r : transaction) : bool :=
  match category r with Some _ => true | None => false end.

(** Two records fall in the same group of the specification when they
    carry the same category or both carry none. *)
Definition same_category (r r' : transaction) : bool :=
  match category r, category r' with
  | Some a, Some b => String.eqb a b
  | None, None => true
  | _, _ => false
  end.

(** The transaction created from a row: a category that is [None] or empty
    becomes ["Autre"], an account that is [None] or empty becomes
    ["Cash"], a text is kept. *)
Definition created_from (r : csv_row) (t : transaction) : Prop :=
  t_date t = r_date r /\
  r_amount r = ANum (amount t) /\
  (r_category r = CNone \/ r_category r = CText "" ->
     category t = Some "Autre"%string) /\
  (forall s, s <> ""%string -> r_category r = CText s -> category t = Some s) /\
  (r_account r = None \/ r_account r = Some CNone \/ r_account r = Some (CText "") ->
     account t = Some "Cash"%string) /\
  (forall s, s <> ""%string -> r_account r = Some (CText s) -> account t = Some s).

Definition parsed (r : csv_row) : Prop := exists q, r_amount r = ANum q.

(* ------------------------------------------------------------------ *)
(** * Sample data *)

(** The scenario of the specification: three movements of January 2024. *)
Definition spec_example : DataFrame :=
  [ mkTransaction 1 (ymd2ord 2024 1 5) (Some "Rent"%string)
      (Some "Housing"%string) (Num.of_Z (-500)) (Some "Cash"%string);
    mkTransaction 2 (ymd2ord 2024 1 10) (Some "Salary"%string)
      (Some "Income"%string) (Num.of_Z 2000) (Some "Bank"%string);
    mkTransaction 3 (ymd2ord 2024 1 20) (Some "Groceries"%string)
      (Some "Food"%string) (Num.of_Z (-200)) (Some "Cash"%string) ].

(** A snapshot with a single outflow. *)
Definition rent_only : DataFrame :=
  [ mkTransaction 1 (ymd2ord 2024 1 20) (Some "Rent"%string)
      (Some "Housing"%string) (Num.of_Z (-300)) (Some "Cash"%string) ].

(** A clock that passes midnight after the second reading. *)
Definition late_clock : Clock :=
  fun n => if (n <? 2)%nat then ymd2ord 2024 1 25 else ymd2ord 2024 1 26.

(** A snapshot whose only record has no category (a [NULL] in the
    [category] column). *)
Definition uncategorized : DataFrame :=
  [ mkTransaction 7 (ymd2ord 2024 1 12) (Some "Fee"%string) None
      (Num.of_Z (-40)) (Some "Cash"%string) ].

(** One outflow of 320 on 26 December 2023. *)
Definition boundary_example : DataFrame :=
  [ mkTransaction 1 (ymd2ord 2023 12 26) (Some "Insurance"%string)
      (Some "Fees"%string) (Num.of_Z (-320)) (Some "Bank"%string) ].

(** A clock that passes midnight between the two readings of
    [compute_kpis]. *)
Definition midnight_clock : Clock :=
  fun n => if (n <? 1)%nat then ymd2ord 2024 1 25 else ymd2ord 2024 1 26.

(** One outflow of 1, nine days before 25 January 2024. *)
Definition small_burn : DataFrame :=
  [ mkTransaction 1 (ymd2ord 2024 1 16) (Some "Stamp"%string)
      (Some "Office"%string) (Num.of_Z (-1)) (Some "Cash"%string) ].

(** A balance of [2^1023] and an outflow of [2^-1074], the smallest
    positive float, on 25 January 2024. *)
Definition overflow_balance : Qc := Num.of_Z (2 ^ 1023).

Definition overflow_example : DataFrame :=
  [ mkTransaction 1 (ymd2ord 2024 1 25) (Some "Dust"%string)
      (Some "Fees"%string) (Q2Qc ((-1) # Z.to_pos (2 ^ 1074)))
      (Some "Cash"%string) ].

(** A file without [account] column: one row with an empty category
    field, one row with a category. *)
Definition csv_example : list csv_row :=
  [ mkRow (ymd2ord 2024 2 1) (CText "Coffee") CNaN (ANum (Num.of_Z (-3))) None;
    mkRow (ymd2ord 2024 2 2) (CText "Tea") (CText "Drinks")
      (ANum (Num.of_Z (-2))) None ].

(** The file
    [date,description,category,amount,account] /
    [2024-02-01,Coffee,,-3,]:
    the category and the account of its row are empty fields. *)
Definition csv_empty_fields : list csv_row :=
  [ mkRow (ymd2ord 2024 2 1) (CText "Coffee") CNaN (ANum (Num.of_Z (-3)))
      (Some CNaN) ].

Definition empty_db : db := {| next_id := 1; table := [] |}.

(** ** A decimal codec

    [str] on a whole amount below [10^16] writes its digits and [.0];
    [float] on a text made of digits, with or without a point and a minus
    sign, returns the nearest float.  The other texts that [float] reads
    (exponents, [inf], [nan], texts beyond the floats) are left out of
    this sample: it rejects them. *)
Definition str_whole (v : Qc) : string :=
  NilZero.string_of_int (Z.to_int (Qfloor v)) ++ ".0".

Fixpoint split_at_dot (s : string) : string * option string :=
  match s with
  | EmptyString => (EmptyString, None)
  | String c s' =>
      if Ascii.eqb c "." then (EmptyString, Some s')
      else let (a, b) := split_at_dot s' in (String c a, b)
  end.

(** The number that a run of digits writes; no digit is no number. *)
Definition digits_value (s : string) : option Z :=
  option_map Z.of_uint (NilZero.uint_of_string s).

Definition float_decimal (s : string) : option Qc :=
  let (negative, body) :=
    match s with
    | String "-" t => (true, t)
    | _ => (false, s)
    end in
  let (whole, point) := split_at_dot body in
  let frac := match point with Some f => f | None => EmptyString end in
  let parts :=
    match whole, frac with
    | EmptyString, EmptyString => None
    | EmptyString, _ => option_map (fun f => (0, f)) (digits_value frac)
    | _, EmptyString => option_map (fun w => (w, 0)) (digits_value whole)
    | _, _ =>
        match digits_value whole, digits_value frac with
        | Some w, Some f => Some (w, f)
        | _, _ => None
        end
    end in
  match parts with
  | Some (w, f) =>
      let scale := 10 ^ Z.of_nat (String.length frac) in
      let q := Q2Qc ((w * scale + f) # Z.to_pos scale) in
      match Num.round64 (if negative then - q else q)%Qc with
      | Num.Finite x => Some x
      | _ => None
      end
  | None => None
  end.

(* ------------------------------------------------------------------ *)
(** * The transaction store *)

(** [update_transaction]: one [UPDATE ... WHERE id=?], with
    [account or 'Cash'].  The row keeps its [id]. *)
Definition update_transaction (st : db) (tid : Z) (d : date)
    (description category : cell) (amount : Qc) (account : cell) : db :=
  {| next_id := next_id st;
     table :=
       map (fun t =>
              if id t =? tid then
                mkTransaction (id t) d (sql_text description)
                  (sql_text category) amount
                  (sql_text (py_or account (CText "Cash")))
              else t)
           (table st) |}.

(** [delete_transaction]: one [DELETE ... WHERE id=?].  The
    [AUTOINCREMENT] counter is not given back. *)
Definition delete_transaction (st : db) (tid : Z) : db :=
  {| next_id := next_id st;
     table := filter (fun t => negb (id t =? tid)) (table st) |}.

(** [ORDER BY t_date ASC, id ASC].  The dates are stored in ISO format,
    whose text order is the order of the dates. *)
Definition date_id_leb (a b : transaction) : bool :=
  (t_date a <? t_date b) || ((t_date a =? t_date b) && (id a <=? id b)).

(** [fetch_transactions_df]: the snapshot handed to the analytics. *)
Definition fetch_transactions_df (st : db) : DataFrame :=
  sort_values date_id_leb (table st).

(** The identifiers of a store are distinct and below the counter. *)
Definition store_ok (st : db) : Prop :=
  NoDup (map id (table st)) /\ Forall (fun t => id t < next_id st) (table st).

Definition by_date_id (a b : transaction) : Prop :=
  t_date a < t_date b \/ (t_date a = t_date b /\ id a <= id b).

(* ------------------------------------------------------------------ *)
(** * The settings store *)

(** The [settings] table: [key] is its primary key, [value] may be
    [NULL]. *)
Definition settings := list (string * option string).

(** [SELECT value FROM settings WHERE key=?] followed by [fetchone()]. *)
Fixpoint select_value (key : string) (s : settings) : option (option string) :=
  match s with
  | [] => None
  | (k, v) :: s' => if String.eqb k key then Some v else select_value key s'
  end.

(** [INSERT OR IGNORE]: a row whose key is taken is not inserted. *)
Definition insert_or_ignore (key : string) (v : option string) (s : settings)
  : settings :=
  match select_value key s with
  | Some _ => s
  | None => s ++ [(key, v)]
  end.

(** [REPLACE INTO]: the row whose key is taken is deleted first. *)
Definition replace_into (key : string) (v : option string) (s : settings)
  : settings :=
  filter (fun kv => negb (String.eqb (fst kv) key)) s ++ [(key, v)].

(** The part of [init_db] that writes: the default of the initial
    balance.  [CREATE TABLE IF NOT EXISTS] leaves existing tables as they
    are. *)
Definition init_db (s : settings) : settings :=
  insert_or_ignore "initial_balance" (Some "0"%string) s.

Section Settings.
(** The builtins [str] and [float] of Python; [float] raises on a text
    that is not a number. *)
Variable py_str : Qc -> string.
Variable py_float_text : string -> option Qc.

Definition get_initial_balance (s : settings) : option Qc :=
  match select_value "initial_balance" s with
  | Some (Some v) => py_float_text v
  | _ => Some 0%Qc
  end.

Definition set_initial_balance (val : Qc) (s : settings) : settings :=
  replace_into "initial_balance" (Some (py_str val)) s.

End Settings.

Definition primary_key (s : settings) : Prop := NoDup (map fst s).

(* ------------------------------------------------------------------ *)
(** * The transactions tab of [main] *)

(** [Series.unique()]: the values in order of first appearance. *)
Definition unique (l : list string) : list string :=
  fold_left (fun seen x => if existsb (String.eqb x) seen then seen
                           else seen ++ [x]) l [].

(** [Series.dropna()] on the [category] column. *)
Fixpoint dropna (l : list (option string)) : list string :=
  match l with
  | [] => []
  | Some c :: l' => c :: dropna l'
  | None :: l' => dropna l'
  end.

(** [cats]: the categories offered by the filter,
    [sorted([c for c in df['category'].dropna().unique()])]. *)
Definition cats (df : DataFrame) : list string :=
  if df_empty df then []
  else sort_values String.leb (unique (dropna (map category df))).

Section View.
(** [Series.str.contains(q, case=False, na=False)] on one description: a
    regular expression search, taken as given; a missing description does
    not match. *)
Variable contains : string -> string -> bool.

Definition description_matches (q : string) (r : transaction) : bool :=
  match description r with
  | Some s => contains q s
  | None => false
  end.

(** [Series.isin(cat_sel)] on one category. *)
Definition isin (cat_sel : list string) (r : transaction) : bool :=
  match category r with
  | Some c => existsb (String.eqb c) cat_sel
  | None => false
  end.

(** The table shown in the tab: [dfv], filtered by period, categories and
    search text, then sorted by [(t_date, id)], both descending. *)
Definition transactions_view (df : DataFrame) (d1 d2 : date)
    (cat_sel : list string) (q : string) : DataFrame :=
  let dfv :=
    if df_empty df then df
    else
      let dfv := filter (fun r => (d1 <=? t_date r) && (t_date r <=? d2)) df in
      let dfv := match cat_sel with
                 | [] => dfv
                 | _ => filter (isin cat_sel) dfv
                 end in
      if String.eqb q "" then dfv else filter (description_matches q) dfv in
  sort_values (fun a b => date_id_leb b a) dfv.

End View.

(** The store after the import of the example file. *)
Definition imported_db : db := fst (import_rows empty_db csv_example).

(* ------------------------------------------------------------------ *)
(** * Sums *)

Lemma fold_left_Qcplus (l : list Qc) (a : Qc) :
  fold_left Qcplus l a = (a + total l)%Qc.
Proof.
  revert a. induction l as [|x l IH]; intros a; simpl.
  - ring.
  - rewrite IH. ring.
Qed.

Lemma series_sum_total (l : list Qc) : Num.series_sum l = total l.
Proof. unfold Num.series_sum. rewrite fold_left_Qcplus. ring. Qed.

Lemma total_perm (l1 l2 : list Qc) :
  Permutation l1 l2 -> total l1 = total l2.
Proof.
  induction 1; simpl; try congruence; ring.
Qed.

Lemma ltb_lt (a b : Qc) : Num.ltb a b = true <-> (a < b)%Qc.
Proof.
  unfold Num.ltb. rewrite Qclt_alt.
  destruct (a ?= b)%Qc; split; congruence.
Qed.

Lemma ltb_nlt (a b : Qc) : Num.ltb a b = false <-> ~ (a < b)%Qc.
Proof.
  rewrite <- ltb_lt. destruct (Num.ltb a b); split; congruence.
Qed.

Lemma leb_le (a b : Qc) : Num.leb a b = true <-> (a <= b)%Qc.
Proof.
  unfold Num.leb. rewrite Qcle_alt.
  destruct (a ?= b)%Qc; split; congruence.
Qed.

Lemma leb_total (a b : Qc) : Num.leb a b = true \/ Num.leb b a = true.
Proof.
  rewrite !leb_le. destruct (Qclt_le_dec a b) as [Hlt | Hle]; [left | now right].
  now apply Qclt_le_weak.
Qed.

Lemma Qcinv_pos (y : Qc) : (0 < y)%Qc -> (0 < / y)%Qc.
Proof.
  intros Hy. apply Qcnot_le_lt. intros Hle.
  assert (Hy0 : y <> 0%Qc) by (intros ->; now apply (Qclt_not_eq 0 0)).
  pose proof (Qcmult_le_compat_r _ _ y Hle (Qclt_le_weak _ _ Hy)) as Hm.
  rewrite Qcmult_inv_l, Qcmult_0_l in Hm by assumption.
  now apply (Qcle_not_lt _ _ Hm).
Qed.

Lemma Qcdiv_pos (x y : Qc) : (0 < x)%Qc -> (0 < y)%Qc -> (0 < x / y)%Qc.
Proof.
  intros Hx Hy. unfold Qcdiv.
  pose proof (Qcmult_lt_compat_r 0 x (/ y) (Qcinv_pos y Hy) Hx) as Hm.
  now rewrite Qcmult_0_l in Hm.
Qed.

Lemma Qcopp_pos (y : Qc) : (y < 0)%Qc -> (0 < - y)%Qc.
Proof.
  intros Hy. apply Qclt_minus_iff in Hy. now rewrite Qcplus_0_l in Hy.
Qed.

(** On a number that is not negative, truncation is the floor. *)
Lemma py_int_floor (q : Qc) : (0 <= q)%Qc -> Num.py_int q = Qfloor q.
Proof.
  unfold Num.py_int, Qcle, Qle. destruct q as [[n d] Hc]. simpl.
  intros Hq. apply Z.quot_div_nonneg; lia.
Qed.

(* ------------------------------------------------------------------ *)
(** * Floats *)

Lemma Q2Qc_nonneg (x : Q) : (0 <= x)%Q -> (0 <= Q2Qc x)%Qc.
Proof.
  intros Hx. unfold Qcle. simpl. now rewrite Qred_correct.
Qed.

Lemma round_half_even_nonneg (a b : Z) :
  0 <= a -> 0 < b -> 0 <= Num.round_half_even a b.
Proof.
  intros Ha Hb. unfold Num.round_half_even.
  pose proof (Z.div_pos a b Ha Hb) as Hq.
  destruct (2 * (a mod b) ?= b); [destruct (Z.even (a / b))| |]; lia.
Qed.

Lemma scaled_nonneg (m e : Z) : 0 <= m -> (0 <= Num.scaled m e)%Qc.
Proof.
  intros Hm. unfold Num.scaled. destruct (0 <=? e) eqn:He.
  - apply Q2Qc_nonneg. apply Z.leb_le in He.
    change 0%Q with (inject_Z 0). rewrite <- Zle_Qle.
    apply Z.mul_nonneg_nonneg; [assumption|]. apply Z.pow_nonneg. lia.
  - apply Q2Qc_nonneg. unfold Qle. simpl. lia.
Qed.

Lemma round64_pos_nonneg (n d : Z) (f : Qc) :
  0 < n -> 0 < d -> Num.round64_pos n d = Num.Finite f -> (0 <= f)%Qc.
Proof.
  intros Hn Hd. unfold Num.round64_pos.
  set (e := Z.max (Num.floor_log2 n d - 52) (-1074)).
  destruct (0 <=? e) eqn:He.
  - apply Z.leb_le in He. cbn [andb].
    destruct (2 ^ 1024 <=? _); [discriminate|]. intros [= <-].
    apply scaled_nonneg. apply round_half_even_nonneg; [lia|].
    apply Z.mul_pos_pos; [assumption|]. apply Z.pow_pos_nonneg; lia.
  - apply Z.leb_gt in He. cbn [andb]. intros [= <-].
    apply scaled_nonneg. apply round_half_even_nonneg; [|assumption].
    apply Z.mul_nonneg_nonneg; [lia|]. apply Z.pow_nonneg. lia.
Qed.

(** Rounding keeps the sign. *)
Lemma round64_nonneg (q f : Qc) :
  (0 <= q)%Qc -> Num.round64 q = Num.Finite f -> (0 <= f)%Qc.
Proof.
  intros Hq. unfold Num.round64. unfold Qcle, Qle in Hq.
  destruct q as [[n d] Hc]. simpl in Hq. cbn [this Qnum Qden].
  destruct n as [|n|n].
  - intros [= <-]. apply Qcle_refl.
  - apply round64_pos_nonneg; lia.
  - lia.
Qed.

Lemma is_zero_pos (q : Qc) : (0 < q)%Qc -> Num.is_zero q = false.
Proof.
  intros Hq. unfold Num.is_zero. unfold Qclt, Qlt in Hq.
  destruct q as [[n d] Hc]. simpl in Hq. cbn [this Qnum].
  destruct n; [lia | reflexivity | lia].
Qed.

(** The quotient of a positive balance by a burn is not negative. *)
Lemma runway_quotient_nonneg (cb q : Qc) (avg : Num.fval) :
  (0 < cb)%Qc -> Num.fneg avg = true ->
  Num.float_div (Num.round64 cb) (Num.fopp avg) = Num.Finite q ->
  (0 <= q)%Qc.
Proof.
  intros Hcb Havg. apply Qclt_le_weak in Hcb.
  pose proof (round64_nonneg cb) as Hr.
  destruct (Num.round64 cb) as [a| |]; [|destruct avg; discriminate|discriminate].
  specialize (Hr a Hcb eq_refl).
  destruct avg as [b|s|]; cbn [Num.fneg Num.fopp Num.float_div] in *;
    [|intros [= <-]; apply Qcle_refl|discriminate].
  apply ltb_lt, Qcopp_pos in Havg. rewrite (is_zero_pos _ Havg).
  apply round64_nonneg.
  destruct (Qc_eq_dec a 0%Qc) as [-> | Ha].
  - unfold Qcdiv. rewrite Qcmult_0_l. apply Qcle_refl.
  - apply Qclt_le_weak, Qcdiv_pos; [|assumption].
    apply Qcle_lt_or_eq in Hr. destruct Hr as [Hr | Hr]; [assumption | congruence].
Qed.

Lemma burn_rate_days (p : DataFrame) (days : Z) :
  burn_rate p days = burn_rate p (Z.max days 1).
Proof. unfold burn_rate. now rewrite <- Z.max_assoc, Z.max_id. Qed.

(** A property of the integers from [lo] on, [n] of them, holds when it
    holds of each. *)
Lemma Z_range_ind (P : Z -> Prop) (lo : Z) (n : nat) :
  (forall i : nat, (i < n)%nat -> P (lo + Z.of_nat i)) ->
  forall x, lo <= x < lo + Z.of_nat n -> P x.
Proof.
  intros Hall x Hx.
  replace x with (lo + Z.of_nat (Z.to_nat (x - lo))) by lia.
  apply Hall. lia.
Qed.

(* ------------------------------------------------------------------ *)
(** * Minimum and maximum of a column *)

Lemma fold_min_spec (xs : list Z) (x : Z) :
  is_min (fold_left Z.min xs x) (x :: xs).
Proof.
  revert x. induction xs as [|y xs IH]; intros x; simpl.
  - split; [now left | constructor; [lia | constructor]].
  - destruct (IH (Z.min x y)) as [Hin Hall]. split.
    + destruct Hin as [Hin | Hin]; [|now right; right].
      rewrite <- Hin. destruct (Z.min_spec x y) as [[_ ->] | [_ ->]]; simpl; auto.
    + inversion Hall as [|? ? Hm Hxs]; subst.
      constructor; [lia|]. constructor; [lia | assumption].
Qed.

Lemma fold_max_spec (xs : list Z) (x : Z) :
  is_max (fold_left Z.max xs x) (x :: xs).
Proof.
  revert x. induction xs as [|y xs IH]; intros x; simpl.
  - split; [now left | constructor; [lia | constructor]].
  - destruct (IH (Z.max x y)) as [Hin Hall]. split.
    + destruct Hin as [Hin | Hin]; [|now right; right].
      rewrite <- Hin. destruct (Z.max_spec x y) as [[_ ->] | [_ ->]]; simpl; auto.
    + inversion Hall as [|? ? Hm Hxs]; subst.
      constructor; [lia|]. constructor; [lia | assumption].
Qed.

Lemma py_min_spec (l : list Z) :
  l <> [] -> exists m, py_min l = Some m /\ is_min m l.
Proof.
  destruct l as [|x xs]; [congruence|]. intros _.
  exists (fold_left Z.min xs x). split; [reflexivity | apply fold_min_spec].
Qed.

Lemma py_max_spec (l : list Z) :
  l <> [] -> exists m, py_max l = Some m /\ is_max m l.
Proof.
  destruct l as [|x xs]; [congruence|]. intros _.
  exists (fold_left Z.max xs x). split; [reflexivity | apply fold_max_spec].
Qed.

Lemma is_min_unique (l : list Z) (a b : Z) : is_min a l -> is_min b l -> a = b.
Proof.
  intros [Ha Hla] [Hb Hlb]. rewrite Forall_forall in Hla, Hlb.
  specialize (Hla _ Hb). specialize (Hlb _ Ha). lia.
Qed.

Lemma is_max_unique (l : list Z) (a b : Z) : is_max a l -> is_max b l -> a = b.
Proof.
  intros [Ha Hla] [Hb Hlb]. rewrite Forall_forall in Hla, Hlb.
  specialize (Hla _ Hb). specialize (Hlb _ Ha). lia.
Qed.

(* ------------------------------------------------------------------ *)
(** * Lists *)

Lemma filter_nonempty {A} (p : A -> bool) (l : list A) :
  existsb p l = true -> filter p l <> [].
Proof.
  intros He Hf. apply existsb_exists in He. destruct He as [x [Hx Hp]].
  assert (Hin : In x (filter p l)) by (apply filter_In; auto).
  rewrite Hf in Hin. destruct Hin.
Qed.

Lemma filter_empty {A} (p : A -> bool) (l : list A) :
  existsb p l = false -> filter p l = [].
Proof.
  intros He. destruct (filter p l) as [|x l'] eqn:Hf; [reflexivity|].
  assert (Hin : In x (filter p l)) by (rewrite Hf; now left).
  apply filter_In in Hin.
  assert (existsb p l = true) by (apply existsb_exists; eauto).
  congruence.
Qed.

Lemma filter_perm {A} (p : A -> bool) (l l' : list A) :
  Permutation l l' -> Permutation (filter p l) (filter p l').
Proof.
  induction 1 as [| x l l' Hp IH | x y l | l l' l'' Hp1 IH1 Hp2 IH2]; simpl.
  - constructor.
  - destruct (p x); [now constructor | assumption].
  - destruct (p x), (p y); try reflexivity. apply perm_swap.
  - now transitivity (filter p l').
Qed.

Lemma filter_filter {A} (p q : A -> bool) (l : list A) :
  filter p (filter q l) = filter (fun x => p x && q x) l.
Proof.
  induction l as [|x l IH]; simpl; [reflexivity|].
  destruct (q x); simpl; rewrite ?andb_true_r, ?andb_false_r;
    [destruct (p x)|]; now rewrite IH.
Qed.

Lemma total_amounts_perm (l l' : DataFrame) :
  Permutation l l' -> total (amounts l) = total (amounts l').
Proof. intros Hp. apply total_perm. unfold amounts. now apply Permutation_map. Qed.

Lemma cumsum_from_length (l : list Qc) (acc : Qc) :
  List.length (Num.cumsum_from acc l) = List.length l.
Proof.
  revert acc. induction l as [|a l IH]; intros acc; simpl; auto.
Qed.

Lemma map_fst_combine {A B} (l : list A) (l' : list B) :
  List.length l = List.length l' -> map fst (combine l l') = l.
Proof.
  revert l'. induction l as [|a l IH]; intros [|b l']; simpl; try discriminate; auto.
  intros [= Hlen]. now rewrite IH.
Qed.

(* ------------------------------------------------------------------ *)
(** * Months *)

Lemma shiftr5_range (n : Z) : 0 <= n < 365 -> 1 <= Z.shiftr (n + 50) 5 <= 12.
Proof.
  intros Hn. rewrite Z.shiftr_div_pow2 by lia.
  replace (2 ^ 5) with 32 by reflexivity.
  Z.div_mod_to_equations. lia.
Qed.

Lemma ord2ymd_month_range (d : date) :
  1 <= snd (year_month d) <= 12.
Proof.
  unfold year_month, ord2ymd.
  set (n := (((d - 1) mod DI400Y) mod DI100Y mod DI4Y) mod 365).
  assert (Hn : 0 <= n < 365) by (apply Z.mod_pos_bound; lia).
  pose proof (shiftr5_range n Hn) as Hm.
  set (m := Z.shiftr (n + 50) 5) in *.
  destruct (_ || _); [simpl; lia|].
  destruct (n <? _) eqn:Hlt; simpl; [|lia].
  assert (m <> 1); [|lia].
  intros H1. rewrite H1 in Hlt. simpl in Hlt. apply Z.ltb_lt in Hlt. lia.
Qed.

Lemma days_before_year_step (y : Z) :
  365 <= days_before_year (y + 1) - days_before_year y <= 366.
Proof.
  unfold days_before_year. cbv zeta.
  replace (y + 1 - 1) with (y - 1 + 1) by lia.
  generalize (y - 1). intros x.
  Z.div_mod_to_equations. lia.
Qed.

Lemma days_before_year_mono (y y' : Z) :
  y < y' -> days_before_year y + 365 <= days_before_year y'.
Proof.
  intros Hlt. replace y' with (y + 1 + Z.of_nat (Z.to_nat (y' - y - 1))) by lia.
  induction (Z.to_nat (y' - y - 1)) as [|k IH].
  - pose proof (days_before_year_step y). simpl. rewrite Z.add_0_r. lia.
  - pose proof (days_before_year_step (y + 1 + Z.of_nat k)).
    replace (y + 1 + Z.of_nat (S k)) with (y + 1 + Z.of_nat k + 1) by lia. lia.
Qed.

Lemma days_before_month_range (y m : Z) :
  1 <= m <= 12 -> 0 <= days_before_month y m <= 335.
Proof.
  intros Hm. unfold days_before_month.
  assert (Hc : m = 1 \/ m = 2 \/ m = 3 \/ m = 4 \/ m = 5 \/ m = 6 \/ m = 7 \/
               m = 8 \/ m = 9 \/ m = 10 \/ m = 11 \/ m = 12) by lia.
  destruct (is_leap y);
    repeat (destruct Hc as [-> | Hc]; [simpl; lia|]); subst; simpl; lia.
Qed.

Lemma days_before_month_inj (y m m' : Z) :
  1 <= m <= 12 -> 1 <= m' <= 12 ->
  days_before_month y m = days_before_month y m' -> m = m'.
Proof.
  intros Hm Hm'. unfold days_before_month.
  assert (Hc : m = 1 \/ m = 2 \/ m = 3 \/ m = 4 \/ m = 5 \/ m = 6 \/ m = 7 \/
               m = 8 \/ m = 9 \/ m = 10 \/ m = 11 \/ m = 12) by lia.
  assert (Hc' : m' = 1 \/ m' = 2 \/ m' = 3 \/ m' = 4 \/ m' = 5 \/ m' = 6 \/ m' = 7 \/
               m' = 8 \/ m' = 9 \/ m' = 10 \/ m' = 11 \/ m' = 12) by lia.
  destruct (is_leap y);
    repeat (destruct Hc as [-> | Hc]);
    repeat (destruct Hc' as [-> | Hc']); subst; simpl; lia.
Qed.

Lemma ymd2ord_first_inj (y m y' m' : Z) :
  1 <= m <= 12 -> 1 <= m' <= 12 ->
  ymd2ord y m 1 = ymd2ord y' m' 1 -> y = y' /\ m = m'.
Proof.
  intros Hm Hm'. unfold ymd2ord. intros Heq.
  pose proof (days_before_month_range y m Hm).
  pose proof (days_before_month_range y' m' Hm').
  assert (Hy : y = y').
  { destruct (Z.lt_trichotomy y y') as [Hlt | [He | Hgt]]; [|assumption|].
    - pose proof (days_before_year_mono _ _ Hlt). lia.
    - pose proof (days_before_year_mono _ _ Hgt). lia. }
  subst y'. split; [reflexivity|].
  apply (days_before_month_inj y); auto. lia.
Qed.

(** The first day of the month identifies the year and the month. *)
Lemma month_start_year_month (d d' : date) :
  month_start d = month_start d' <-> year_month d = year_month d'.
Proof.
  pose proof (ord2ymd_month_range d) as Hd.
  pose proof (ord2ymd_month_range d') as Hd'.
  unfold month_start, year_month in *.
  destruct (ord2ymd d) as [[y m] dd]. destruct (ord2ymd d') as [[y' m'] dd'].
  simpl in Hd, Hd'. split.
  - intros Heq. apply ymd2ord_first_inj in Heq; auto. destruct Heq; congruence.
  - intros [= -> ->]. reflexivity.
Qed.

(* ------------------------------------------------------------------ *)
(** * Runs of [compute_kpis] *)

Lemma compute_kpis_empty (ib : Qc) (c : Clock) :
  compute_kpis [] ib c = Some (empty_kpi ib, c).
Proof. reflexivity. Qed.

Lemma result_returned {A} (o : option A) (c : Clock) :
  result (returned o c) = o.
Proof. now destruct o. Qed.

(** The two readings of the clock decide the burn period. *)
Lemma burn_period_unique (df : DataFrame) (c1 c2 : Clock)
    (p1 p2 : DataFrame) (d1 d2 : Z) :
  c1 0%nat = c2 0%nat -> c1 1%nat = c2 1%nat ->
  burn_period df c1 p1 d1 -> burn_period df c2 p2 d2 -> p1 = p2 /\ d1 = d2.
Proof.
  unfold burn_period. intros H0 H1. rewrite <- H0, <- H1.
  intros [(Hex1 & Hp1 & f1 & Hmin1 & Hd1) | (Hex1 & Hp1 & f1 & l1 & Hmin1 & Hmax1 & Hd1)]
         [(Hex2 & Hp2 & f2 & Hmin2 & Hd2) | (Hex2 & Hp2 & f2 & l2 & Hmin2 & Hmax2 & Hd2)];
    try congruence.
  - subst p1 p2. rewrite (is_min_unique _ _ _ Hmin1 Hmin2) in Hd1.
    split; congruence.
  - subst p1 p2. rewrite (is_min_unique _ _ _ Hmin1 Hmin2) in Hd1.
    rewrite (is_max_unique _ _ _ Hmax1 Hmax2) in Hd1. split; congruence.
Qed.

(** A run on a non-empty snapshot reads the clock once for the cutoff and,
    when some record is recent, once more for the number of days; it
    raises only where [int()] does. *)
Lemma compute_kpis_nonempty (df : DataFrame) (ib : Qc) (c : Clock) :
  df <> [] ->
  exists period days c',
    compute_kpis df ib c
    = returned (kpi_record df ib (c 0%nat - 30) period days) c' /\
    burn_period df c period days.
Proof.
  intros Hne. unfold burn_period.
  assert (Hend : forall (p : DataFrame) (d : Z) (c' : Clock),
    (runway_days <-
       (if Num.fneg (burn_rate p d) then
          if Num.ltb 0%Qc (ib + Num.series_sum (amounts df))%Qc then
            n <- lift (Num.py_int_float
                         (Num.float_div
                            (Num.round64 (ib + Num.series_sum (amounts df))%Qc)
                            (Num.fopp (burn_rate p d)))) ;;
            ret (Some n)
          else ret (Some 0)
        else ret None) ;;
     ret {| current_balance := (ib + Num.series_sum (amounts df))%Qc;
            net_30d :=
              Num.series_sum
                (amounts (filter (fun r => c 0%nat - 30 <=? t_date r) df));
            avg_daily_burn := burn_rate p d;
            runway_days := runway_days |}) c'
    = returned (kpi_record df ib (c 0%nat - 30) p d) c').
  { intros p d c'. unfold kpi_record, runway_of, returned, bind, lift, ret, raise.
    destruct (Num.fneg (burn_rate p d)); [|reflexivity].
    destruct (Num.ltb 0%Qc (ib + Num.series_sum (amounts df))%Qc); [|reflexivity].
    now destruct (Num.py_int_float _). }
  unfold compute_kpis. destruct df as [|r0 rs]; [congruence|].
  cbn [df_empty]. set (df := r0 :: rs) in *.
  assert (Hd : dates df <> []) by discriminate.
  unfold bind at 1 2. unfold date_today at 1. cbv beta iota.
  destruct (existsb (fun r => c 0%nat - 30 <=? t_date r) df) eqn:Hex.
  - assert (Hp : dates (filter (fun r => c 0%nat - 30 <=? t_date r) df) <> []).
    { unfold dates. intros Hm. apply map_eq_nil in Hm.
      now apply (filter_nonempty _ _ Hex). }
    destruct (py_min_spec _ Hp) as [first [Hfirst Hmin]].
    unfold bind at 1 2. unfold date_today. rewrite Hfirst.
    cbn [lift ret]. cbv beta iota.
    eexists _, _, _. split; [apply Hend|]. left.
    repeat split; try assumption. exists first. split; [assumption | reflexivity].
  - destruct (py_min_spec _ Hd) as [first [Hfirst Hmin]].
    destruct (py_max_spec _ Hd) as [last [Hlast Hmax]].
    unfold bind at 1 2. rewrite Hlast, Hfirst.
    cbn [lift ret]. cbv beta iota.
    eexists _, _, _. split; [apply Hend|]. right.
    repeat split; try assumption. exists first, last. auto.
Qed.

(** What a run that returns has computed. *)
Lemma compute_kpis_returned (df : DataFrame) (ib : Qc) (c c' : Clock) (k : KPI) :
  df <> [] ->
  compute_kpis df ib c = Some (k, c') ->
  exists period days,
    kpi_record df ib (c 0%nat - 30) period days = Some k /\
    burn_period df c period days.
Proof.
  intros Hne Hrun.
  destruct (compute_kpis_nonempty df ib c Hne) as (p & d & c1 & Heq & Hcase).
  exists p, d. split; [|exact Hcase].
  rewrite Hrun in Heq.
  destruct (kpi_record df ib (c 0%nat - 30) p d) as [k1|]; [|discriminate].
  simpl in Heq. congruence.
Qed.

(** The fields of the record of a period. *)
Lemma kpi_record_fields (df : DataFrame) (ib : Qc) (cutoff : date)
    (p : DataFrame) (d : Z) (k : KPI) :
  kpi_record df ib cutoff p d = Some k ->
  current_balance k = (ib + Num.series_sum (amounts df))%Qc /\
  net_30d k = Num.series_sum (amounts (filter (fun r => cutoff <=? t_date r) df)) /\
  avg_daily_burn k = burn_rate p d /\
  runway_rule k.
Proof.
  unfold kpi_record, runway_rule.
  destruct (runway_of _ _) as [rw|] eqn:Hrw; [|discriminate].
  intros [= <-]. cbn [current_balance net_30d avg_daily_burn runway_days].
  repeat split. exact Hrw.
Qed.

Lemma compute_kpis_runway_rule (df : DataFrame) (ib : Qc) (c c' : Clock) (k : KPI) :
  compute_kpis df ib c = Some (k, c') -> runway_rule k.
Proof.
  destruct df as [|r rs] eqn:Hdf.
  - rewrite compute_kpis_empty. intros [= <- _]. reflexivity.
  - rewrite <- Hdf. assert (Hne : df <> []) by (rewrite Hdf; discriminate).
    intros Hrun.
    destruct (compute_kpis_returned df ib c c' k Hne Hrun) as (p & d & Hk & _).
    now apply kpi_record_fields in Hk.
Qed.

(* ------------------------------------------------------------------ *)
(** * Facts on grouping *)
Section GroupByFacts.
Context {K : Type} `{KeyOrder K}.

Lemma keqb_eq (a b : K) : keqb a b = true <-> a = b.
Proof.
  unfold keqb. split.
  - destruct (kcmp a b) eqn:E; try discriminate. intros _. now apply kcmp_eq.
  - intros ->. now rewrite kcmp_refl.
Qed.

Lemma kcmp_Eq_iff (a b : K) : kcmp a b = Eq <-> a = b.
Proof.
  split; [apply kcmp_eq | intros ->; apply kcmp_refl].
Qed.

Lemma kcmp_Gt_Lt (a b : K) : kcmp a b = Gt -> kcmp b a = Lt.
Proof. intros E. rewrite (kcmp_antisym a b), E. reflexivity. Qed.

Lemma klt_irrefl (a : K) : ~ klt a a.
Proof. unfold klt. rewrite kcmp_refl. discriminate. Qed.

Lemma klt_trans (a b c : K) : klt a b -> klt b c -> klt a c.
Proof. apply kcmp_trans. Qed.

Lemma klt_neq (a b : K) : klt a b -> a <> b.
Proof. intros Hl ->. now apply (klt_irrefl b). Qed.

Lemma ascending_NoDup (l : list K) : ascending l -> NoDup l.
Proof.
  induction 1 as [|a l Hs IH Hall]; constructor; auto.
  intros Hin. rewrite Forall_forall in Hall.
  now apply (klt_irrefl a), Hall.
Qed.

Lemma Forall_klt_trans (a b : K) (l : list K) :
  klt a b -> Forall (klt b) l -> Forall (klt a) l.
Proof.
  intros Hab. apply Forall_impl. intros c. now apply klt_trans.
Qed.

Lemma ascending_ext (l1 l2 : list K) :
  ascending l1 -> ascending l2 -> (forall x, In x l1 <-> In x l2) -> l1 = l2.
Proof.
  intros H1. revert l2. induction H1 as [|a l1 Hs1 IH Hall1]; intros l2 H2 Hext.
  - destruct l2 as [|b l2]; [reflexivity|].
    destruct (proj2 (Hext b)); now left.
  - destruct H2 as [|b l2 Hs2 Hall2].
    + destruct (proj1 (Hext a)); now left.
    + rewrite Forall_forall in Hall1, Hall2.
      assert (Hab : a = b).
      { destruct (proj1 (Hext a) (or_introl eq_refl)) as [Hb | Ha]; [auto|].
        destruct (proj2 (Hext b) (or_introl eq_refl)) as [Ha' | Hb']; [auto|].
        exfalso. apply (klt_irrefl a).
        apply klt_trans with b; [now apply Hall1 | now apply Hall2]. }
      subst b. f_equal. apply IH; [assumption|].
      intros x. split; intros Hx.
      * destruct (proj1 (Hext x) (or_intror Hx)) as [Hb | Hin]; [|assumption].
        subst x. now destruct (klt_irrefl a (Hall1 a Hx)).
      * destruct (proj2 (Hext x) (or_intror Hx)) as [Hb | Hin]; [|assumption].
        subst x. now destruct (klt_irrefl a (Hall2 a Hx)).
Qed.

Section Series.
Context {V : Type}.
Implicit Types (s : series K V) (f : V -> V -> V).

Lemma lookup_In k v s : lookup k s = Some v -> In (k, v) s.
Proof.
  induction s as [|[k' v'] s IH]; simpl; [discriminate|].
  destruct (kcmp k k') eqn:E.
  - intros [= ->]. apply kcmp_eq in E. subst. now left.
  - intros Hl. right. auto.
  - intros Hl. right. auto.
Qed.

Lemma lookup_None k s : lookup k s = None <-> ~ In k (keys s).
Proof.
  induction s as [|[k' v'] s IH]; simpl.
  - split; auto.
  - destruct (kcmp k k') eqn:E.
    + apply kcmp_eq in E. subst. split; [discriminate | intros Hn].
      exfalso. apply Hn. now left.
    + rewrite IH. split; [|tauto]. intros Hn [He | Hin]; [|tauto].
      subst k'. rewrite kcmp_refl in E. discriminate.
    + rewrite IH. split; [|tauto]. intros Hn [He | Hin]; [|tauto].
      subst k'. rewrite kcmp_refl in E. discriminate.
Qed.

Lemma In_lookup k v s : ascending (keys s) -> In (k, v) s -> lookup k s = Some v.
Proof.
  induction s as [|[k' v'] s IH]; simpl; [tauto|].
  intros Hs. inversion Hs as [|? ? Hs' Hall]; subst.
  intros [[= -> ->] | Hin].
  - now rewrite kcmp_refl.
  - assert (Hk : klt k' k).
    { rewrite Forall_forall in Hall. apply Hall.
      unfold keys. now apply (in_map fst _ (k, v)). }
    destruct (kcmp k k') eqn:E; auto.
    apply kcmp_eq in E. subst. now destruct (klt_irrefl k').
Qed.

Lemma upsert_keys_In f k v s x :
  In x (keys (upsert f k v s)) <-> x = k \/ In x (keys s).
Proof.
  induction s as [|[k' v'] s IH]; simpl.
  - split; intros [?|?]; auto.
  - destruct (kcmp k k') eqn:E; simpl.
    + apply kcmp_eq in E. subst k'. split; [intros [?|?]; auto | ].
      intros [?|[?|?]]; auto.
    + split; [intros [?|[?|?]]; auto | intros [?|[?|?]]; auto].
    + rewrite IH. split; [intros [?|[?|?]]; auto | intros [?|[?|?]]; auto].
Qed.

Lemma upsert_ascending f k v s :
  ascending (keys s) -> ascending (keys (upsert f k v s)).
Proof.
  induction s as [|[k' v'] s IH]; simpl; intros Hs.
  - repeat constructor.
  - inversion Hs as [|? ? Hs' Hall]; subst.
    destruct (kcmp k k') eqn:E; simpl.
    + constructor; assumption.
    + constructor; [assumption|]. constructor; [exact E|].
      now apply Forall_klt_trans with k'.
    + constructor; [now apply IH|].
      apply Forall_forall. intros x Hx. apply upsert_keys_In in Hx.
      destruct Hx as [-> | Hx].
      * now apply kcmp_Gt_Lt.
      * rewrite Forall_forall in Hall. now apply Hall.
Qed.

Lemma lookup_upsert_other f k v s k' :
  k' <> k -> lookup k' (upsert f k v s) = lookup k' s.
Proof.
  intros Hne. induction s as [|[k0 v0] s IH]; simpl.
  - destruct (kcmp k' k) eqn:E; auto. apply kcmp_eq in E. contradiction.
  - destruct (kcmp k k0) eqn:E; simpl.
    + apply kcmp_eq in E. subst k0.
      destruct (kcmp k' k) eqn:E'; auto. apply kcmp_eq in E'. contradiction.
    + destruct (kcmp k' k) eqn:E'; auto. apply kcmp_eq in E'. contradiction.
    + now rewrite IH.
Qed.

Lemma lookup_upsert_same f k v s :
  ascending (keys s) ->
  lookup k (upsert f k v s)
  = Some (match lookup k s with Some old => f old v | None => v end).
Proof.
  induction s as [|[k0 v0] s IH]; simpl; intros Hs.
  - now rewrite kcmp_refl.
  - inversion Hs as [|? ? Hs' Hall]; subst.
    destruct (kcmp k k0) eqn:E; simpl.
    + now rewrite E.
    + rewrite kcmp_refl.
      assert (Hn : lookup k s = None).
      { apply lookup_None. intros Hin. rewrite Forall_forall in Hall.
        apply (klt_irrefl k). apply klt_trans with k0; [exact E|].
        now apply Hall. }
      now rewrite Hn.
    + rewrite E. now apply IH.
Qed.

End Series.

(** ** The groups of [groupby_agg] *)

Section AggFacts.
Context {R V : Type} (f : V -> V -> V) (key : R -> K) (val : R -> V).

Lemma group_fold_ascending rows acc :
  ascending (keys acc) -> ascending (keys (group_fold f key val rows acc)).
Proof.
  revert acc. induction rows as [|r rows IH]; simpl; intros acc Hs; auto.
  apply IH. now apply upsert_ascending.
Qed.

Lemma group_fold_keys rows acc x :
  In x (keys (group_fold f key val rows acc)) <-> In x (keys acc) \/ In x (map key rows).
Proof.
  revert acc. induction rows as [|r rows IH]; simpl; intros acc.
  - tauto.
  - rewrite IH, upsert_keys_In. split; intros Hx.
    + destruct Hx as [[-> | ?] | ?]; auto.
    + destruct Hx as [? | [<- | ?]]; auto.
Qed.

Lemma group_fold_lookup rows acc k :
  ascending (keys acc) ->
  lookup k (group_fold f key val rows acc) = agg_from f key val k rows (lookup k acc).
Proof.
  revert acc. induction rows as [|r rows IH]; simpl; intros acc Hs; auto.
  rewrite IH by now apply upsert_ascending.
  unfold agg_from. f_equal. unfold agg_step.
  destruct (keqb (key r) k) eqn:E.
  - apply keqb_eq in E. subst k. now apply lookup_upsert_same.
  - apply lookup_upsert_other. intros ->. rewrite (proj2 (keqb_eq _ _)) in E; congruence.
Qed.

Lemma groupby_agg_ascending rows : ascending (keys (groupby_agg f key val rows)).
Proof. apply group_fold_ascending. constructor. Qed.

Lemma groupby_agg_keys rows x :
  In x (keys (groupby_agg f key val rows)) <-> In x (map key rows).
Proof.
  unfold groupby_agg. fold (group_fold f key val rows []).
  rewrite group_fold_keys. simpl. tauto.
Qed.

Lemma groupby_agg_lookup rows k :
  lookup k (groupby_agg f key val rows) = agg_from f key val k rows None.
Proof.
  unfold groupby_agg. fold (group_fold f key val rows []).
  rewrite group_fold_lookup by constructor. reflexivity.
Qed.

Lemma groupby_agg_In rows k v :
  In (k, v) (groupby_agg f key val rows) <-> agg_from f key val k rows None = Some v.
Proof.
  rewrite <- groupby_agg_lookup. split.
  - apply In_lookup, groupby_agg_ascending.
  - apply lookup_In.
Qed.

End AggFacts.

(** ** Union of indexes *)

Lemma insert_key_known (k : K) (l : list K) :
  ascending l -> In k l -> insert_key k l = l.
Proof.
  induction l as [|k' l IH]; simpl; [tauto|].
  intros Hs Hin. inversion Hs as [|? ? Hs' Hall]; subst.
  destruct (kcmp k k') eqn:E; auto.
  - destruct Hin as [-> | Hin].
    + rewrite kcmp_refl in E. discriminate.
    + exfalso. rewrite Forall_forall in Hall.
      apply (klt_irrefl k). apply klt_trans with k'; [exact E | now apply Hall].
  - f_equal. apply IH; auto. destruct Hin as [-> | Hin]; auto.
    rewrite kcmp_refl in E. discriminate.
Qed.

Lemma index_union_known (a b : list K) :
  ascending a -> (forall k, In k b -> In k a) -> index_union a b = a.
Proof.
  intros Ha. unfold index_union. induction b as [|k b IH]; simpl; intros Hb; auto.
  rewrite insert_key_known; auto.
Qed.

Lemma insert_key_In (k x : K) (l : list K) :
  In x (insert_key k l) <-> x = k \/ In x l.
Proof.
  induction l as [|k' l IH]; simpl.
  - split; intros [?|?]; auto.
  - destruct (kcmp k k') eqn:E; simpl.
    + apply kcmp_eq in E. subst k'.
      split; intros Hx; [tauto | destruct Hx as [-> | Hx]; [now left | assumption]].
    + split; [intros [?|[?|?]]; auto | intros [?|[?|?]]; auto].
    + rewrite IH. split; [intros [?|[?|?]]; auto | intros [?|[?|?]]; auto].
Qed.

Lemma index_union_In (a b : list K) (x : K) :
  In x (index_union a b) <-> In x a \/ In x b.
Proof.
  unfold index_union. revert a. induction b as [|k b IH]; simpl; intros a.
  - tauto.
  - rewrite IH, insert_key_In. split; intros Hx.
    + destruct Hx as [[-> | ?] | ?]; auto.
    + destruct Hx as [? | [<- | ?]]; auto.
Qed.

Lemma insert_key_ascending (k : K) (l : list K) :
  ascending l -> ascending (insert_key k l).
Proof.
  induction l as [|k' l IH]; simpl; intros Hs.
  - repeat constructor.
  - inversion Hs as [|? ? Hs' Hall]; subst.
    destruct (kcmp k k') eqn:E.
    + assumption.
    + constructor; [assumption|]. constructor; [exact E|].
      now apply Forall_klt_trans with k'.
    + constructor; [now apply IH|].
      apply Forall_forall. intros x Hx. apply insert_key_In in Hx.
      destruct Hx as [-> | Hx].
      * now apply kcmp_Gt_Lt.
      * rewrite Forall_forall in Hall. now apply Hall.
Qed.

Lemma index_union_ascending (a b : list K) :
  ascending a -> ascending (index_union a b).
Proof.
  unfold index_union. revert a.
  induction b as [|k b IH]; simpl; intros a Ha; auto.
  apply IH. now apply insert_key_ascending.
Qed.

(** ** Sums of groups *)

Section Aggregates.
Context {R : Type} (key : R -> K).

Lemma group_nil_iff (k : K) (rows : list R) :
  group key k rows = [] <-> ~ In k (map key rows).
Proof.
  unfold group. induction rows as [|r rows IH]; simpl; [tauto|].
  destruct (keqb (key r) k) eqn:E.
  - apply keqb_eq in E. split; [discriminate | intros Hn; exfalso; auto].
  - rewrite IH. split; [|tauto]. intros Hn [He | Hin]; [|tauto].
    apply keqb_eq in He. congruence.
Qed.

Lemma agg_from_sum (val : R -> Qc) (k : K) (rows : list R) (o : option Qc) :
  agg_from Qcplus key val k rows o =
    match group key k rows with
    | [] => o
    | g => Some (fillna0 o + total (map val g))%Qc
    end.
Proof.
  unfold agg_from, group. revert o.
  induction rows as [|r rows IH]; intros o; simpl; [reflexivity|].
  rewrite IH. unfold agg_step.
  destruct (keqb (key r) k); [|reflexivity].
  destruct (filter _ rows) as [|r' g]; f_equal; destruct o; simpl; ring.
Qed.

Lemma groupby_sum_In (val : R -> Qc) (rows : list R) (k : K) (v : Qc) :
  In (k, v) (groupby_sum key val rows) <->
  In k (map key rows) /\ v = total (map val (group key k rows)).
Proof.
  unfold groupby_sum. rewrite groupby_agg_In, agg_from_sum.
  pose proof (group_nil_iff k rows) as Hnil.
  destruct (group key k rows) as [|r g] eqn:Hg.
  - split; [discriminate | intros [Hin _]]. now apply Hnil in Hin.
  - split.
    + intros [= <-]. split.
      * assert (Hr : In r (group key k rows)) by (rewrite Hg; now left).
        apply filter_In in Hr. destruct Hr as [Hr Hk].
        apply keqb_eq in Hk. subst k. now apply in_map.
      * simpl. ring.
    + intros [_ ->]. f_equal. simpl. ring.
Qed.

End Aggregates.

Lemma groupby_sum_lookup {R} (key : R -> K) (val : R -> Qc)
    (rows : list R) (k : K) :
  fillna0 (lookup k (groupby_sum key val rows))
  = total (map val (group key k rows)).
Proof.
  unfold groupby_sum. rewrite groupby_agg_lookup, agg_from_sum.
  destruct (group key k rows); simpl; ring.
Qed.

Lemma groupby_sum_keys {R} (key : R -> K) (val : R -> Qc)
    (rows : list R) (k : K) :
  In k (keys (groupby_sum key val rows)) <-> In k (map key rows).
Proof. apply groupby_agg_keys. Qed.

End GroupByFacts.

Lemma keqb_Z (a b : Z) : keqb a b = (a =? b).
Proof.
  unfold keqb. simpl.
  destruct (Z.compare_spec a b), (Z.eqb_spec a b); try reflexivity; lia.
Qed.

Lemma keqb_string (a b : string) : keqb a b = String.eqb a b.
Proof.
  destruct (String.eqb_spec a b) as [-> | Hne].
  - now apply keqb_eq.
  - destruct (keqb a b) eqn:E; [|reflexivity]. apply keqb_eq in E. contradiction.
Qed.

(* ------------------------------------------------------------------ *)
(** * Facts on sorting *)
Section SortFacts.
Context {A : Type} (le : A -> A -> bool).
Hypothesis le_total : forall a b, le a b = true \/ le b a = true.

Lemma insert_sorted_perm (x : A) (l : list A) :
  Permutation (insert_sorted le x l) (x :: l).
Proof.
  induction l as [|y l IH]; simpl; [reflexivity|].
  destruct (le x y); [reflexivity|].
  rewrite IH. apply perm_swap.
Qed.

Lemma sort_values_perm (l : list A) : Permutation (sort_values le l) l.
Proof.
  induction l as [|x l IH]; simpl; [reflexivity|].
  rewrite insert_sorted_perm. now constructor.
Qed.

Lemma insert_sorted_Sorted (x : A) (l : list A) :
  Sorted (le_prop le) l -> Sorted (le_prop le) (insert_sorted le x l).
Proof.
  induction l as [|y l IH]; simpl; intros Hs.
  - repeat constructor.
  - destruct (le x y) eqn:E.
    + constructor; [assumption|]. now constructor.
    + inversion Hs as [|? ? Hs' Hhd]; subst.
      constructor; [now apply IH|].
      destruct l as [|z l]; simpl.
      * constructor. destruct (le_total x y); [congruence | assumption].
      * destruct (le x z).
        -- constructor. destruct (le_total x y); [congruence | assumption].
        -- inversion Hhd; subst. now constructor.
Qed.

Lemma sort_values_Sorted (l : list A) : Sorted (le_prop le) (sort_values le l).
Proof.
  induction l as [|x l IH]; simpl; [constructor|].
  now apply insert_sorted_Sorted.
Qed.

End SortFacts.

Lemma by_date_sorted (df : DataFrame) :
  StronglySorted by_date (sort_values (fun a b => t_date a <=? t_date b) df).
Proof.
  apply Sorted_StronglySorted.
  - intros a b c. unfold by_date. lia.
  - eapply Sorted_ind with (P := Sorted by_date);
      [ constructor | | apply sort_values_Sorted ].
    + intros a l _ IH Hhd. constructor; [assumption|].
      inversion Hhd; subst; constructor. unfold le_prop in *.
      now apply Z.leb_le.
    + intros a b. rewrite !Z.leb_le. lia.
Qed.

Lemma by_amount_sorted (s : series string Qc) :
  StronglySorted by_amount (sort_values (fun a b => Num.leb (snd a) (snd b)) s).
Proof.
  apply Sorted_StronglySorted.
  - intros a b c. unfold by_amount. apply Qcle_trans.
  - eapply Sorted_ind with (P := Sorted by_amount);
      [ constructor | | apply sort_values_Sorted ].
    + intros a l _ IH Hhd. constructor; [assumption|].
      inversion Hhd; subst; constructor. unfold le_prop in *.
      now apply leb_le.
    + intros a b. apply leb_total.
Qed.

(* ------------------------------------------------------------------ *)
(** * Running balances, monthly and category sums *)

(** Along rows in date order, the last running balance of the date [d] is
    the balance before the rows plus all the amounts up to [d]. *)
Lemma running_balance (ib : Qc) (d : date) (l : DataFrame) :
  StronglySorted by_date l ->
  forall (acc : Qc) (o : option Qc),
    agg_from (fun _ new : Qc => new) (fun rc => t_date (fst rc)) snd d
      (combine l (map (fun c => (c + ib)%Qc) (Num.cumsum_from acc (amounts l)))) o
    = if existsb (fun r => t_date r =? d) l
      then Some (acc + total (amounts (filter (fun r => t_date r <=? d) l)) + ib)%Qc
      else o.
Proof.
  unfold agg_from.
  induction 1 as [|r l Hs IH Hall]; intros acc o; [reflexivity|].
  cbn [amounts map Num.cumsum_from combine fold_left existsb filter].
  fold (amounts l). rewrite IH. unfold agg_step. cbn [fst snd].
  rewrite keqb_Z. rewrite Forall_forall in Hall. unfold by_date in Hall.
  destruct (existsb (fun r0 => t_date r0 =? d) l) eqn:Hex.
  - apply existsb_exists in Hex. destruct Hex as [r' [Hin Hr']].
    apply Z.eqb_eq in Hr'. specialize (Hall _ Hin).
    assert (Hle : (t_date r <=? d) = true) by (apply Z.leb_le; lia).
    rewrite Hle, orb_true_r. cbn [amounts map total]. apply f_equal.
    unfold amounts. ring.
  - rewrite orb_false_r.
    destruct (t_date r =? d) eqn:Hrd; [|reflexivity].
    apply Z.eqb_eq in Hrd.
    assert (Hle : (t_date r <=? d) = true) by (apply Z.leb_le; lia).
    rewrite Hle.
    assert (Hnone : filter (fun r0 => t_date r0 <=? d) l = []).
    { apply filter_empty. apply not_true_is_false. intros Hyes.
      apply existsb_exists in Hyes. destruct Hyes as [r' [Hin Hr']].
      apply Z.leb_le in Hr'. specialize (Hall _ Hin).
      assert (Heq : existsb (fun r0 => t_date r0 =? d) l = true).
      { apply existsb_exists. exists r'. split; [assumption|].
        apply Z.eqb_eq. lia. }
      congruence. }
    rewrite Hnone. cbn [amounts map total]. apply f_equal. destruct o; ring.
Qed.

Lemma dropna_category_group (c : string) (df : DataFrame) :
  map snd (group fst c (dropna_category df))
  = amounts (filter (has_category c) df).
Proof.
  unfold group, has_category.
  induction df as [|r df IH]; simpl; [reflexivity|].
  destruct (category r) as [c'|]; simpl; [|assumption].
  rewrite keqb_string. destruct (String.eqb c' c); simpl; now rewrite IH.
Qed.

Lemma dropna_category_keys (c : string) (df : DataFrame) :
  In c (map fst (dropna_category df)) <-> exists r, In r df /\ category r = Some c.
Proof.
  induction df as [|r df IH]; simpl.
  - split; [tauto | intros [r [[] _]]].
  - destruct (category r) as [c'|] eqn:Hc; simpl; rewrite ?IH.
    + split.
      * intros [-> | [r' [Hin Hr']]]; [exists r; auto | exists r'; auto].
      * intros [r' [[<- | Hin] Hr']]; [left; congruence | right; eauto].
    + split.
      * intros [r' [Hin Hr']]. exists r'. auto.
      * intros [r' [[<- | Hin] Hr']]; [congruence | eauto].
Qed.

Lemma category_breakdown_perm (df : DataFrame) :
  Permutation (category_breakdown df) (groupby_sum fst snd (dropna_category df)).
Proof.
  unfold category_breakdown. destruct df as [|r rs]; [reflexivity|].
  cbn [df_empty]. apply sort_values_perm.
Qed.

(** Groups that every row falls in exactly one of make up the rows. *)
Lemma groups_partition {K R} (f : K -> R -> bool) (ks : list K) (l : list R) :
  NoDup ks ->
  (forall r, In r l -> exists k, In k ks /\ f k r = true) ->
  (forall r k k', f k r = true -> f k' r = true -> k = k') ->
  Permutation (List.concat (map (fun k => filter (f k) l) ks)) l.
Proof.
  intros Hnd Hcover Hone.
  induction l as [|a l IH].
  - clear. induction ks as [|k ks IH]; simpl; [constructor | exact IH].
  - assert (IH' := IH (fun r Hr => Hcover r (or_intror Hr))). clear IH.
    destruct (Hcover a (or_introl eq_refl)) as [ka [Hka Hfa]].
    apply perm_trans with (a :: List.concat (map (fun k => filter (f k) l) ks));
      [|now constructor].
    clear IH' Hcover. induction ks as [|k ks IHk]; [destruct Hka|].
    inversion Hnd as [|? ? Hnotin Hnd']; subst. cbn [map List.concat].
    assert (Hhead : filter (f k) (a :: l)
                    = if f k a then a :: filter (f k) l else filter (f k) l)
      by reflexivity.
    rewrite Hhead. clear Hhead. destruct (f k a) eqn:Hk.
    + assert (Heq : k = ka) by (eapply Hone; eauto). subst k.
      assert (Hrest : map (fun k => filter (f k) (a :: l)) ks
                      = map (fun k => filter (f k) l) ks).
      { apply map_ext_in. intros k' Hin. cbn [filter].
        destruct (f k' a) eqn:Hk'; [|reflexivity].
        assert (k' = ka) by (eapply Hone; eauto). congruence. }
      rewrite Hrest. reflexivity.
    + destruct Hka as [-> | Hka]; [congruence|].
      apply perm_trans
        with (filter (f k) l ++ a :: List.concat (map (fun k => filter (f k) l) ks)).
      * apply Permutation_app_head. now apply IHk.
      * apply Permutation_sym, Permutation_middle.
Qed.

(** The months of [monthly_flows] are those of the grouped net sums. *)
Lemma monthly_flows_months (df : DataFrame) :
  map month (monthly_flows df) = keys (groupby_sum month_of amount df).
Proof.
  unfold monthly_flows. destruct df as [|r0 rs]; [reflexivity|].
  cbn [df_empty]. set (df := r0 :: rs). fold month_of.
  set (pos := filter (fun r => Num.ltb 0%Qc (amount r)) df).
  set (neg := filter (fun r => Num.ltb (amount r) 0%Qc) df).
  set (nets := groupby_sum month_of amount df).
  rewrite map_map. cbn [month]. rewrite map_id.
  apply ascending_ext.
  - apply index_union_ascending, index_union_ascending, groupby_agg_ascending.
  - apply groupby_agg_ascending.
  - intros m. unfold nets. rewrite !index_union_In, !groupby_sum_keys.
    assert (Hsub : forall p, In m (map month_of (filter p df))
                             -> In m (map month_of df)).
    { intros p Hin. apply in_map_iff in Hin. destruct Hin as [r [Hr Hin]].
      apply filter_In in Hin. apply in_map_iff. exists r. tauto. }
    unfold pos, neg. split; [|tauto].
    intros [[Hin | Hin] | Hin];
      [exact (Hsub _ Hin) | exact (Hsub _ Hin) | exact Hin].
Qed.

Lemma has_category_categorized (c : string) (df : DataFrame) :
  filter (has_category c) (filter categorized df) = filter (has_category c) df.
Proof.
  rewrite filter_filter. apply filter_ext. intros r.
  unfold has_category, categorized. destruct (category r); [|reflexivity].
  apply andb_true_r.
Qed.

(** The sums of a row of [monthly_flows], over the records of its month. *)
Lemma monthly_flows_row (df : DataFrame) (row : flow_row) :
  In row (monthly_flows df) ->
  let l := group month_of (month row) df in
  inflow row = total (amounts (filter (fun r => Num.ltb 0%Qc (amount r)) l)) /\
  outflow row = total (amounts (filter (fun r => Num.ltb (amount r) 0%Qc) l)) /\
  net row = total (amounts l).
Proof.
  unfold monthly_flows. destruct df as [|r0 rs]; [intros []|].
  cbn [df_empty]. set (df := r0 :: rs). fold month_of.
  intros Hin. apply in_map_iff in Hin. destruct Hin as [m [<- _]].
  cbn [month inflow outflow net]. rewrite !groupby_sum_lookup.
  unfold group, amounts. rewrite !filter_filter.
  repeat split; f_equal; f_equal; apply filter_ext; intros r; apply andb_comm.
Qed.

(* ------------------------------------------------------------------ *)
(** * Created transactions *)

Lemma truthy_text (s : string) : s <> ""%string -> truthy (CText s) = true.
Proof.
  intros Hs. simpl. destruct (String.eqb_spec s ""); [contradiction | reflexivity].
Qed.

Lemma insert_created (st : db) (r : csv_row) (q : Qc) :
  r_amount r = ANum q ->
  created_from r
    (mkTransaction (next_id st) (r_date r)
       (sql_text (py_or (r_description r) (CText "")))
       (sql_text (py_or (r_category r) (CText "Autre"))) q
       (sql_text (py_or (py_or (get_account r) (CText "Cash")) (CText "Cash")))).
Proof.
  intros Hq. unfold created_from, get_account. cbn [t_date amount category account].
  repeat split; auto.
  - intros [-> | ->]; reflexivity.
  - intros s Hs ->. unfold py_or. now rewrite truthy_text.
  - intros [-> | [-> | ->]]; reflexivity.
  - intros s Hs ->. unfold py_or. now rewrite !truthy_text.
Qed.

(* ------------------------------------------------------------------ *)
(** * Properties of [compute_kpis] *)






(** C3.  A balance of [2^1023] that burns [2^-1074] a day, two finite
    floats: the burn rate is negative and the balance positive, so that
    the runway is due as the floor of their quotient; the quotient
    [2^2097] is beyond the floats, the float division gives an infinity
    and [int()] raises [OverflowError]: the run returns no record. *)
Theorem compute_kpis_runway_overflow :
  Num.fneg (burn_rate overflow_example 1) = true /\
  (0 < overflow_balance + total (amounts overflow_example))%Qc /\
  Num.float_div
    (Num.round64 (overflow_balance + total (amounts overflow_example))%Qc)
    (Num.fopp (burn_rate overflow_example 1))
  = Num.Infinite false /\
  compute_kpis overflow_example overflow_balance (const_clock (ymd2ord 2024 1 25))
  = None.
Proof. repeat split; vm_compute; reflexivity. Qed.

(** C4, as stated, fails: [compute_kpis] has no [today] argument, it reads
    the clock itself.  The same snapshot and the same initial balance give
    a runway of 14 days on 25 January and of 23 days on 29 January. *)
Lemma compute_kpis_depends_on_clock :
  result (compute_kpis rent_only (Num.of_Z 1000) (const_clock (ymd2ord 2024 1 25)))
  <> result (compute_kpis rent_only (Num.of_Z 1000) (const_clock (ymd2ord 2024 1 29))).
Proof.
  intros H. apply (f_equal (option_map runway_days)) in H.
  vm_compute in H. discriminate H.
Qed.

(** C4, amended.  The output of [compute_kpis] is determined by the
    snapshot, the initial balance and the dates that its two readings of
    the clock return: two runs that read the same dates return the same
    record. *)
Theorem compute_kpis_deterministic
    (df : DataFrame) (initial_balance : Qc) (c1 c2 : Clock) :
  c1 0%nat = c2 0%nat -> c1 1%nat = c2 1%nat ->
  result (compute_kpis df initial_balance c1)
  = result (compute_kpis df initial_balance c2).
Proof.
  intros H0 H1. destruct df as [|r rs] eqn:Hdf; [reflexivity|].
  rewrite <- Hdf. assert (Hne : df <> []) by (rewrite Hdf; discriminate).
  destruct (compute_kpis_nonempty df initial_balance c1 Hne)
    as (p1 & d1 & c1' & Hrun1 & Hcase1).
  destruct (compute_kpis_nonempty df initial_balance c2 Hne)
    as (p2 & d2 & c2' & Hrun2 & Hcase2).
  rewrite Hrun1, Hrun2, !result_returned.
  destruct (burn_period_unique _ _ _ _ _ _ _ H0 H1 Hcase1 Hcase2) as [-> ->].
  now rewrite H0.
Qed.

(** Two clocks that agree on the two readings and differ afterwards. *)
Lemma compute_kpis_deterministic_witness :
  result (compute_kpis rent_only (Num.of_Z 1000) (const_clock (ymd2ord 2024 1 25)))
  = result (compute_kpis rent_only (Num.of_Z 1000) late_clock).
Proof.
  apply (compute_kpis_deterministic rent_only (Num.of_Z 1000)
           (const_clock (ymd2ord 2024 1 25)) late_clock).
  - reflexivity.
  - reflexivity.
Defined.

(* ------------------------------------------------------------------ *)
(** * Properties of the aggregations *)

(** C5. [balance_timeseries] returns one [(date, balance)] pair per
    distinct date of the snapshot, strictly ascending by date, and the
    balance paired with [d] is the initial balance plus the sum of the
    amounts of all records dated [d] or before; the empty snapshot gives
    the empty sequence. *)
Theorem balance_timeseries_spec (df : DataFrame) (initial_balance : Qc) :
  let ts := balance_timeseries df initial_balance in
  StronglySorted Z.lt (map fst ts) /\
  NoDup (map fst ts) /\
  (forall d, In d (map fst ts) <-> In d (dates df)) /\
  (forall d b, In (d, b) ts ->
     b = (initial_balance
          + total (amounts (filter (fun r => t_date r <=? d) df)))%Qc) /\
  balance_timeseries [] initial_balance = [].
Proof.
  intros ts. subst ts. unfold balance_timeseries.
  destruct df as [|r0 rs]; cbn [df_empty].
  { repeat split; simpl; try tauto; constructor. }
  set (df := r0 :: rs).
  set (tmp := sort_values (fun a b => t_date a <=? t_date b) df).
  set (rows := combine tmp _).
  assert (Hperm : Permutation tmp df) by apply sort_values_perm.
  assert (Hkeys : map (fun rc : transaction * Qc => t_date (fst rc)) rows = dates tmp).
  { rewrite <- (map_map fst t_date). unfold rows.
    rewrite map_fst_combine; [reflexivity|].
    rewrite length_map. unfold Num.cumsum.
    rewrite cumsum_from_length. unfold amounts. now rewrite length_map. }
  unfold groupby_last.
  pose proof (groupby_agg_ascending (fun _ new : Qc => new)
                (fun rc : transaction * Qc => t_date (fst rc)) snd rows) as Hasc.
  split; [exact Hasc|].
  split; [now apply ascending_NoDup|].
  split.
  - intros d. fold (keys (groupby_agg (fun _ new : Qc => new)
                            (fun rc : transaction * Qc => t_date (fst rc)) snd rows)).
    rewrite groupby_agg_keys, Hkeys. unfold dates.
    split; apply Permutation_in; apply Permutation_map;
      [assumption | now apply Permutation_sym].
  - split; [|reflexivity]. intros d b Hin.
    apply groupby_agg_In in Hin. unfold rows, Num.cumsum in Hin.
    rewrite running_balance in Hin by apply by_date_sorted.
    fold tmp in Hin.
    destruct (existsb (fun r => t_date r =? d) tmp); [|discriminate].
    injection Hin as <-.
    rewrite (total_amounts_perm _ _ (filter_perm (fun r => t_date r <=? d) _ _ Hperm)).
    ring.
Qed.

(** C6. [monthly_flows] returns one entry per calendar month present in
    the snapshot, ascending by month; [inflow] is the sum of the strictly
    positive amounts of the month, [outflow] the sum of its strictly
    negative amounts (0 when there are none), [net] the sum of all its
    amounts; the empty snapshot gives the empty sequence.  The month of an
    entry is the first day of the month: two dates share it exactly when
    they have the same year and month. *)
Theorem monthly_flows_spec (df : DataFrame) :
  let out := monthly_flows df in
  let in_month := fun (m : date) (r : transaction) => month_start (t_date r) =? m in
  StronglySorted Z.lt (map month out) /\
  NoDup (map month out) /\
  (forall m, In m (map month out)
             <-> exists r, In r df /\ month_start (t_date r) = m) /\
  (forall row, In row out ->
     inflow row
     = total (amounts (filter (fun r => in_month (month row) r
                                        && Num.ltb 0%Qc (amount r)) df)) /\
     outflow row
     = total (amounts (filter (fun r => in_month (month row) r
                                        && Num.ltb (amount r) 0%Qc) df)) /\
     net row = total (amounts (filter (in_month (month row)) df))) /\
  monthly_flows [] = [] /\
  (forall d d', month_start d = month_start d' <-> year_month d = year_month d').
Proof.
  intros out in_month. subst out.
  cut (StronglySorted Z.lt (map month (monthly_flows df)) /\
       NoDup (map month (monthly_flows df)) /\
       (forall m, In m (map month (monthly_flows df))
                  <-> exists r, In r df /\ month_start (t_date r) = m) /\
       (forall row, In row (monthly_flows df) ->
          inflow row
          = total (amounts (filter (fun r => in_month (month row) r
                                             && Num.ltb 0%Qc (amount r)) df)) /\
          outflow row
          = total (amounts (filter (fun r => in_month (month row) r
                                             && Num.ltb (amount r) 0%Qc) df)) /\
          net row = total (amounts (filter (in_month (month row)) df))) /\
       monthly_flows [] = []).
  { intros (H1 & H2 & H3 & H4 & H5).
    repeat (split; [assumption|]). apply month_start_year_month. }
  unfold monthly_flows.
  destruct df as [|r0 rs]; cbn [df_empty].
  { split; [constructor|]. split; [constructor|].
    split; [|split; [intros row []|reflexivity]].
    intros m. simpl. split; [tauto | intros [r [[] _]]]. }
  set (df := r0 :: rs). fold month_of.
  set (pos := filter (fun r => Num.ltb 0%Qc (amount r)) df).
  set (neg := filter (fun r => Num.ltb (amount r) 0%Qc) df).
  set (index := index_union _ _).
  assert (Hasc : ascending index).
  { unfold index. apply index_union_ascending, index_union_ascending.
    apply groupby_agg_ascending. }
  assert (Hmonths : forall l : list date,
            map month (map (fun m => {| month := m;
                 inflow := fillna0 (lookup m (groupby_sum month_of amount pos));
                 outflow := fillna0 (lookup m (groupby_sum month_of amount neg));
                 net := fillna0 (lookup m (groupby_sum month_of amount df)) |}) l) = l).
  { intros l. rewrite map_map. simpl. apply map_id. }
  rewrite Hmonths.
  split; [exact Hasc|].
  split; [now apply ascending_NoDup|].
  split.
  - intros m. unfold index. rewrite !index_union_In, !groupby_sum_keys.
    assert (Hsub : forall p, In m (map month_of (filter p df)) -> In m (map month_of df)).
    { intros p Hin. apply in_map_iff in Hin. destruct Hin as [r [Hr Hin]].
      apply filter_In in Hin. apply in_map_iff. exists r. tauto. }
    split.
    + intros [[Hin | Hin] | Hin].
      * apply Hsub in Hin. apply in_map_iff in Hin.
        destruct Hin as [r [Hm Hr]]. exists r. split; [exact Hr | exact Hm].
      * apply Hsub in Hin. apply in_map_iff in Hin.
        destruct Hin as [r [Hm Hr]]. exists r. split; [exact Hr | exact Hm].
      * apply in_map_iff in Hin.
        destruct Hin as [r [Hm Hr]]. exists r. split; [exact Hr | exact Hm].
    + intros [r [Hin Hm]]. right. apply in_map_iff. exists r.
      split; [exact Hm | exact Hin].
  - split; [|reflexivity]. intros row Hin.
    apply in_map_iff in Hin. destruct Hin as [m [<- _]]. cbn [month inflow outflow net].
    rewrite !groupby_sum_lookup. unfold group, pos, neg.
    rewrite !filter_filter. unfold amounts.
    assert (Hk : forall r, keqb (month_of r) m = in_month m r).
    { intros r. unfold in_month, month_of. apply keqb_Z. }
    repeat split; f_equal; f_equal; apply filter_ext; intros r; now rewrite Hk.
Qed.

(** C7, as stated, fails: a record without category has no entry in the
    breakdown. *)
Lemma category_breakdown_drops_uncategorized :
  ~ (forall (df : DataFrame) (r : transaction), In r df ->
       exists e, In e (category_breakdown df) /\
                 snd e = total (amounts (filter (same_category r) df))).
Proof.
  intros Hclaim.
  destruct (Hclaim uncategorized _ (or_introl eq_refl)) as [e [Hin _]].
  exact Hin.
Qed.

(** C7, amended.  [category_breakdown] returns one entry per distinct
    category carried by some record (the empty string is a category of its
    own; records without category are left out), with the sum of the
    amounts of that category, ascending by that sum; the empty snapshot
    gives the empty sequence. *)
Theorem category_breakdown_spec (df : DataFrame) :
  let out := category_breakdown df in
  NoDup (map fst out) /\
  (forall c, In c (map fst out) <-> exists r, In r df /\ category r = Some c) /\
  (forall c v, In (c, v) out ->
     v = total (amounts (filter (has_category c) df))) /\
  StronglySorted by_amount out /\
  category_breakdown [] = [].
Proof.
  intros out. subst out.
  pose proof (category_breakdown_perm df) as Hperm.
  set (g := groupby_sum fst snd (dropna_category df)) in *.
  split.
  { apply (Permutation_NoDup (l := map fst g)).
    - apply Permutation_map. now apply Permutation_sym.
    - apply ascending_NoDup. apply groupby_agg_ascending. }
  split.
  { intros c. rewrite <- dropna_category_keys.
    rewrite <- (groupby_sum_keys fst snd (dropna_category df) c). fold g.
    split; apply Permutation_in; apply Permutation_map;
      [assumption | now apply Permutation_sym]. }
  split.
  { intros c v Hin. apply (Permutation_in _ Hperm) in Hin.
    apply groupby_sum_In in Hin. destruct Hin as [_ ->].
    now rewrite dropna_category_group. }
  split; [|reflexivity].
  unfold category_breakdown. destruct df as [|r rs]; [constructor|].
  cbn [df_empty]. apply by_amount_sorted.
Qed.

(** C8, as stated, fails: the monthly buckets keep a record without
    category, the category buckets leave it out. *)
Lemma conservation_fails_without_category :
  total (map net (monthly_flows uncategorized))
  <> total (map snd (category_breakdown uncategorized)).
Proof.
  intros Heq. apply (f_equal this) in Heq. vm_compute in Heq. discriminate Heq.
Qed.

(** C8, amended.  The monthly buckets split the records of the snapshot:
    every record is of the month of exactly one bucket, whose [net] is the
    sum of the amounts of its records.  The category buckets split the
    records that carry a category in the same way, and a record without
    category is in none of them.  No equality between the separately
    rounded totals follows for the float sums of the code. *)
Theorem aggregation_partition (df : DataFrame) :
  let in_month := fun (m : date) (r : transaction) => month_start (t_date r) =? m in
  Permutation
    (List.concat (map (fun row => filter (in_month (month row)) df) (monthly_flows df)))
    df /\
  (forall row, In row (monthly_flows df) ->
     net row = total (amounts (filter (in_month (month row)) df))) /\
  Permutation
    (List.concat (map (fun e => filter (has_category (fst e)) df)
                 (category_breakdown df)))
    (filter categorized df) /\
  (forall e, In e (category_breakdown df) ->
     snd e = total (amounts (filter (has_category (fst e)) df))) /\
  (forall r e, In r df -> category r = None ->
     In e (category_breakdown df) -> has_category (fst e) r = false).
Proof.
  intros in_month.
  pose proof (category_breakdown_perm df) as Hperm.
  set (g := groupby_sum fst snd (dropna_category df)) in *.
  assert (Hg : ascending (keys g)) by apply groupby_agg_ascending.
  split; [|split; [|split; [|split]]].
  - rewrite <- (map_map month (fun m => filter (in_month m) df)).
    rewrite monthly_flows_months. apply groups_partition.
    + apply ascending_NoDup. apply groupby_agg_ascending.
    + intros r Hin. exists (month_of r). split.
      * apply groupby_sum_keys. now apply in_map.
      * apply Z.eqb_refl.
    + intros r m m' Hm Hm'. apply Z.eqb_eq in Hm, Hm'. congruence.
  - intros row Hin. apply (monthly_flows_row df row) in Hin.
    destruct Hin as (_ & _ & Hn). rewrite Hn. unfold group.
    f_equal. f_equal. apply filter_ext. intros r. apply keqb_Z.
  - rewrite <- (map_map fst (fun c => filter (has_category c) df)).
    rewrite <- (map_ext _ _ (fun c => has_category_categorized c df)).
    apply groups_partition.
    + apply (Permutation_NoDup (l := keys g)).
      * apply Permutation_map. now apply Permutation_sym.
      * now apply ascending_NoDup.
    + intros r Hin. apply filter_In in Hin. destruct Hin as [Hin Hcat].
      unfold categorized in Hcat. destruct (category r) as [c|] eqn:Hc;
        [|discriminate].
      exists c. split.
      * apply (Permutation_in (l := keys g)).
        -- apply Permutation_map. now apply Permutation_sym.
        -- apply groupby_sum_keys. apply dropna_category_keys. eauto.
      * unfold has_category. rewrite Hc. apply String.eqb_refl.
    + intros r c c'. unfold has_category.
      destruct (category r) as [c0|]; [|discriminate].
      intros H1 H2. apply String.eqb_eq in H1, H2. congruence.
  - intros [c v] Hin. apply (Permutation_in _ Hperm) in Hin.
    apply groupby_sum_In in Hin. destruct Hin as [_ ->]. cbn [fst snd].
    now rewrite dropna_category_group.
  - intros r e _ Hc _. unfold has_category. now rewrite Hc.
Qed.

(* ------------------------------------------------------------------ *)
(** * Properties of the CSV import *)

(** C9.  A file whose row has an empty [category] field and an empty
    [account] field: [read_csv] delivers [NaN] for both, [NaN] is true
    for [or], the defaults ['Autre'] and ['Cash'] are not taken and
    SQLite stores [NULL] for both.  The row becomes one transaction,
    without category and without account.  In a file without [account]
    column the import fills the column with [None] and the default
    ['Cash'] is taken. *)
Theorem import_rows_empty_fields :
  import_rows empty_db csv_empty_fields
  = ({| next_id := 2;
        table := [ mkTransaction 1 (ymd2ord 2024 2 1) (Some "Coffee"%string)
                     None (Num.of_Z (-3)) None ] |}, true) /\
  import_rows empty_db csv_example
  = ({| next_id := 3;
        table := [ mkTransaction 1 (ymd2ord 2024 2 1) (Some "Coffee"%string)
                     None (Num.of_Z (-3)) (Some "Cash"%string);
                   mkTransaction 2 (ymd2ord 2024 2 2) (Some "Tea"%string)
                     (Some "Drinks"%string) (Num.of_Z (-2))
                     (Some "Cash"%string) ] |}, true).
Proof. split; reflexivity. Qed.

(* ------------------------------------------------------------------ *)
(** * The scenario of the specification *)

(** The run of the scenario: all three movements are recent, the period
    starts on 5 January and lasts 21 days; the burn rate is the float of
    1300 / 21, above 0. *)
Example spec_example_kpis :
  option_map (fun k => (this (current_balance k), this (net_30d k),
                        Num.as_integer_ratio (avg_daily_burn k), runway_days k))
    (result (compute_kpis spec_example (Num.of_Z 1000)
               (const_clock (ymd2ord 2024 1 25))))
  = Some ((2300 # 1)%Q, (1300 # 1)%Q,
          Some (8712320707710781, 140737488355328%positive), None).
Proof. vm_compute. reflexivity. Qed.

(** A year later no movement is recent: the period is the whole ledger,
    16 days long, counted as 30; the burn rate is the float of 130 / 3. *)
Example spec_example_kpis_old :
  option_map (fun k => (this (current_balance k), this (net_30d k),
                        Num.as_integer_ratio (avg_daily_burn k), runway_days k))
    (result (compute_kpis spec_example (Num.of_Z 1000)
               (const_clock (ymd2ord 2025 1 25))))
  = Some ((2300 # 1)%Q, (0 # 1)%Q,
          Some (6098624495397547, 140737488355328%positive), None).
Proof. vm_compute. reflexivity. Qed.

(** A burning ledger: 300 spent over six days, 700 left, 14 days to go. *)
Example rent_only_kpis :
  option_map (fun k => (this (current_balance k), this (net_30d k),
                        Num.as_integer_ratio (avg_daily_burn k), runway_days k))
    (result (compute_kpis rent_only (Num.of_Z 1000)
               (const_clock (ymd2ord 2024 1 25))))
  = Some ((700 # 1)%Q, ((-300) # 1)%Q, Some (-50, 1%positive), Some 14).
Proof. vm_compute. reflexivity. Qed.

(** The quotient of the runway is a float quotient, rounded before
    [int()] truncates it.  With a balance of 2 and a burn of a tenth a
    day, the float nearest to 0.1 is above 0.1, the floor of the exact
    quotient of the two fields is 19, and the run returns 20. *)
Example small_burn_kpis :
  exists k a,
    result (compute_kpis small_burn (Num.of_Z 3) (const_clock (ymd2ord 2024 1 25)))
    = Some k /\
    avg_daily_burn k = Num.Finite a /\
    (a < 0)%Qc /\ (0 < current_balance k)%Qc /\
    runway_days k = Some 20 /\
    Qfloor (current_balance k / - a)%Qc = 19.
Proof.
  eexists _, _. split; [vm_compute; reflexivity|].
  split; [reflexivity|]. repeat split; vm_compute; reflexivity.
Qed.

Example spec_example_timeseries :
  map (fun p => (ord2ymd (fst p), this (snd p)))
      (balance_timeseries spec_example (Num.of_Z 1000))
  = [ ((2024, 1, 5), (500 # 1)%Q); ((2024, 1, 10), (2500 # 1)%Q);
      ((2024, 1, 20), (2300 # 1)%Q) ].
Proof. vm_compute. reflexivity. Qed.

Example spec_example_monthly_flows :
  map (fun r => (ord2ymd (month r), this (inflow r), this (outflow r), this (net r)))
      (monthly_flows spec_example)
  = [ ((2024, 1, 1), (2000 # 1)%Q, ((-700) # 1)%Q, (1300 # 1)%Q) ].
Proof. vm_compute. reflexivity. Qed.

Example spec_example_category_breakdown :
  map (fun p => (fst p, this (snd p))) (category_breakdown spec_example)
  = [ ("Housing"%string, ((-500) # 1)%Q); ("Food"%string, ((-200) # 1)%Q);
      ("Income"%string, (2000 # 1)%Q) ].
Proof. vm_compute. reflexivity. Qed.

(** A record without category is left out of the breakdown, and kept in
    the monthly flows. *)
Example uncategorized_left_out :
  map (fun p => (fst p, this (snd p)))
      (category_breakdown (spec_example ++ uncategorized))
  = [ ("Housing"%string, ((-500) # 1)%Q); ("Food"%string, ((-200) # 1)%Q);
      ("Income"%string, (2000 # 1)%Q) ]
  /\ map (fun r => this (net r)) (monthly_flows (spec_example ++ uncategorized))
     = [ (1260 # 1)%Q ].
Proof. split; vm_compute; reflexivity. Qed.

(* ------------------------------------------------------------------ *)
(** * The transaction store: lemmas *)

Lemma date_id_leb_spec (a b : transaction) :
  date_id_leb a b = true <-> by_date_id a b.
Proof.
  unfold date_id_leb, by_date_id.
  rewrite orb_true_iff, andb_true_iff, Z.ltb_lt, Z.eqb_eq, Z.leb_le. tauto.
Qed.

Lemma date_id_leb_total (a b : transaction) :
  date_id_leb a b = true \/ date_id_leb b a = true.
Proof. rewrite !date_id_leb_spec. unfold by_date_id. lia. Qed.

Lemma by_date_id_trans (a b c : transaction) :
  by_date_id a b -> by_date_id b c -> by_date_id a c.
Proof. unfold by_date_id. lia. Qed.

Lemma Sorted_le_prop {A} (le : A -> A -> bool) (R : A -> A -> Prop) (l : list A) :
  (forall a b, le a b = true -> R a b) ->
  Sorted (le_prop le) l -> Sorted R l.
Proof.
  intros Hle. induction 1 as [|a l Hs IH Hhd]; constructor; auto.
  inversion Hhd; subst; constructor. now apply Hle.
Qed.

Lemma insert_keeps_store_ok (st : db) (d : date) (de ca : cell) (a : Qc) (ac : cell) :
  store_ok st -> store_ok (insert_transaction st d de ca a ac).
Proof.
  intros [Hnd Hlt]. unfold store_ok, insert_transaction. cbn [table next_id].
  rewrite Forall_forall in Hlt. split.
  - rewrite map_app. cbn [map id].
    apply NoDup_app; [assumption | repeat constructor; auto |].
    intros x Hx [<- | []]. apply in_map_iff in Hx.
    destruct Hx as [t [Ht Hin]]. specialize (Hlt t Hin). lia.
  - apply Forall_app. split.
    + apply Forall_forall. intros t Hin. specialize (Hlt t Hin). lia.
    + repeat constructor. cbn [id]. lia.
Qed.

Lemma update_ids (st : db) (tid : Z) (d : date) (de ca : cell) (a : Qc) (ac : cell) :
  map id (table (update_transaction st tid d de ca a ac)) = map id (table st).
Proof.
  unfold update_transaction. cbn [table]. rewrite map_map.
  apply map_ext. intros t. now destruct (id t =? tid).
Qed.

Lemma import_rows_keeps_store_ok (rows : list csv_row) (st : db) :
  store_ok st -> store_ok (fst (import_rows st rows)).
Proof.
  revert st. induction rows as [|r rows IH]; intros st Hok; [exact Hok|].
  cbn [import_rows]. destruct (py_float (r_amount r)); [|exact Hok].
  apply IH. now apply insert_keeps_store_ok.
Qed.

Lemma empty_db_ok : store_ok empty_db.
Proof. split; constructor. Qed.

Lemma imported_db_ok : store_ok imported_db.
Proof. apply import_rows_keeps_store_ok, empty_db_ok. Qed.

Lemma split_by_id (l : list transaction) (tid : Z) :
  NoDup (map id l) -> In tid (map id l) ->
  exists l1 t l2,
    l = l1 ++ t :: l2 /\ id t = tid /\
    Forall (fun x => id x <> tid) l1 /\ Forall (fun x => id x <> tid) l2.
Proof.
  induction l as [|x l IH]; simpl; [tauto|].
  intros Hnd Hin. inversion Hnd as [|? ? Hnotin Hnd']; subst.
  destruct (Z.eq_dec (id x) tid) as [He | Hne].
  - exists [], x, l. repeat split; auto.
    apply Forall_forall. intros y Hy Hid. apply Hnotin.
    rewrite He, <- Hid. now apply in_map.
  - destruct Hin as [He | Hin]; [contradiction|].
    destruct (IH Hnd' Hin) as (l1 & t & l2 & -> & Ht & H1 & H2).
    exists (x :: l1), t, l2. repeat split; auto.
Qed.

Lemma filter_other_ids (l : list transaction) (tid : Z) :
  Forall (fun x => id x <> tid) l ->
  filter (fun t => negb (id t =? tid)) l = l.
Proof.
  induction 1 as [|x l Hx Hl IH]; simpl; [reflexivity|].
  destruct (Z.eqb_spec (id x) tid); [contradiction|]. simpl. now rewrite IH.
Qed.

Lemma map_other_ids (f : transaction -> transaction) (l : list transaction) (tid : Z) :
  Forall (fun x => id x <> tid) l ->
  map (fun t => if id t =? tid then f t else t) l = l.
Proof.
  induction 1 as [|x l Hx Hl IH]; simpl; [reflexivity|].
  destruct (Z.eqb_spec (id x) tid); [contradiction|]. now rewrite IH.
Qed.

Lemma absent_id (l : list transaction) (tid : Z) :
  ~ In tid (map id l) -> Forall (fun x => id x <> tid) l.
Proof.
  intros Hn. apply Forall_forall. intros x Hx He. apply Hn.
  rewrite <- He. now apply in_map.
Qed.

(* ------------------------------------------------------------------ *)
(** * Properties of the transaction store *)

(** X1. [fetch_transactions_df] returns every stored transaction once, in
    ascending order of date and, within a date, of identifier. *)
Theorem fetch_transactions_df_sorted (st : db) :
  Permutation (fetch_transactions_df st) (table st) /\
  StronglySorted by_date_id (fetch_transactions_df st).
Proof.
  unfold fetch_transactions_df. split; [apply sort_values_perm|].
  apply Sorted_StronglySorted.
  - intros a b c. apply by_date_id_trans.
  - apply (Sorted_le_prop date_id_leb).
    + intros a b. apply date_id_leb_spec.
    + apply sort_values_Sorted. apply date_id_leb_total.
Qed.

(** X2. The identifiers of the store stay distinct and below the
    [AUTOINCREMENT] counter through an insert, an update, a delete and a
    whole import. *)
Theorem store_ok_preserved (st : db) :
  store_ok st ->
  (forall d de ca a ac, store_ok (insert_transaction st d de ca a ac)) /\
  (forall tid d de ca a ac, store_ok (update_transaction st tid d de ca a ac)) /\
  (forall tid, store_ok (delete_transaction st tid)) /\
  (forall rows, store_ok (fst (import_rows st rows))).
Proof.
  intros Hok. split; [intros; now apply insert_keeps_store_ok|].
  split; [|split].
  - intros tid d de ca a ac. destruct Hok as [Hnd Hlt]. split.
    + now rewrite update_ids.
    + unfold update_transaction. cbn [table next_id].
      apply Forall_map. revert Hlt. apply Forall_impl.
      intros t Ht. now destruct (id t =? tid).
  - intros tid. destruct Hok as [Hnd Hlt]. split.
    + unfold delete_transaction. cbn [table].
      induction (table st) as [|t l IH]; simpl; [constructor|].
      inversion Hnd as [|? ? Hnotin Hnd']; subst.
      inversion Hlt as [|? ? Ht Hlt']; subst.
      destruct (id t =? tid); simpl; [now apply IH|].
      constructor; [|now apply IH].
      intros Hin. apply Hnotin. apply in_map_iff in Hin.
      destruct Hin as [t' [He Hin]]. apply filter_In in Hin.
      apply in_map_iff. exists t'. tauto.
    + unfold delete_transaction. cbn [table next_id].
      apply Forall_forall. intros t Hin. apply filter_In in Hin.
      rewrite Forall_forall in Hlt. now apply Hlt.
  - intros rows. now apply import_rows_keeps_store_ok.
Qed.

(** The imported store meets the hypothesis of X2. *)
Lemma store_ok_preserved_witness :
  (forall d de ca a ac, store_ok (insert_transaction imported_db d de ca a ac)) /\
  (forall tid d de ca a ac, store_ok (update_transaction imported_db tid d de ca a ac)) /\
  (forall tid, store_ok (delete_transaction imported_db tid)) /\
  (forall rows, store_ok (fst (import_rows imported_db rows))).
Proof.
  apply (store_ok_preserved imported_db).
  split; [vm_compute; repeat constructor; simpl; intuition discriminate|].
  repeat constructor.
Defined.

(** X3. [delete_transaction] removes the one row that carries the
    identifier and keeps the others in place; for an identifier that no
    row carries it changes nothing. *)
Theorem delete_transaction_spec (st : db) (tid : Z) :
  store_ok st ->
  (In tid (map id (table st)) ->
     exists l1 t l2,
       table st = l1 ++ t :: l2 /\ id t = tid /\
       table (delete_transaction st tid) = l1 ++ l2) /\
  (~ In tid (map id (table st)) -> delete_transaction st tid = st).
Proof.
  intros [Hnd Hlt]. split.
  - intros Hin.
    destruct (split_by_id _ _ Hnd Hin) as (l1 & t & l2 & Hl & Ht & H1 & H2).
    exists l1, t, l2. repeat split; auto.
    unfold delete_transaction. cbn [table]. rewrite Hl, filter_app.
    cbn [filter]. rewrite Ht, Z.eqb_refl. cbn [negb].
    now rewrite !filter_other_ids.
  - intros Hn. unfold delete_transaction.
    rewrite filter_other_ids by now apply absent_id. now destruct st.
Qed.

(** The imported store meets the hypothesis of X3. *)
Lemma delete_transaction_spec_witness :
  (In 1 (map id (table imported_db)) ->
     exists l1 t l2,
       table imported_db = l1 ++ t :: l2 /\ id t = 1 /\
       table (delete_transaction imported_db 1) = l1 ++ l2) /\
  (~ In 1 (map id (table imported_db)) -> delete_transaction imported_db 1 = imported_db).
Proof.
  apply (delete_transaction_spec imported_db 1).
  split; [vm_compute; repeat constructor; simpl; intuition discriminate|].
  repeat constructor.
Defined.

(** X4. A row that has just been inserted carries the value of the
    counter, which no stored row carries; deleting it gives back the table
    as it was, while the counter stays advanced: a later insert does not
    use the identifier again. *)
Theorem insert_delete_round_trip
    (st : db) (d : date) (de ca : cell) (a : Qc) (ac : cell) :
  store_ok st ->
  let st1 := insert_transaction st d de ca a ac in
  let st2 := delete_transaction st1 (next_id st) in
  ~ In (next_id st) (map id (table st)) /\
  table st2 = table st /\
  next_id st2 = next_id st + 1 /\
  (forall d' de' ca' a' ac',
     ~ In (next_id st) (map id (table (insert_transaction st2 d' de' ca' a' ac')))).
Proof.
  intros [Hnd Hlt] st1 st2.
  assert (Hfresh : ~ In (next_id st) (map id (table st))).
  { intros Hin. apply in_map_iff in Hin. destruct Hin as [t [He Hin]].
    rewrite Forall_forall in Hlt. specialize (Hlt t Hin). lia. }
  assert (Htable : table st2 = table st).
  { unfold st2, st1, delete_transaction, insert_transaction. cbn [table next_id].
    rewrite filter_app. cbn [filter id]. rewrite Z.eqb_refl. cbn [negb].
    rewrite app_nil_r. now apply filter_other_ids, absent_id. }
  repeat split; auto.
  intros d' de' ca' a' ac'. unfold insert_transaction. cbn [table].
  rewrite Htable, map_app. cbn [map id next_id].
  intros Hin. apply in_app_or in Hin. destruct Hin as [Hin | [He | []]]; [auto|].
  unfold st2, st1 in He. cbn in He. lia.
Qed.

(** The imported store meets the hypothesis of X4. *)
Lemma insert_delete_round_trip_witness :
  let st1 := insert_transaction imported_db 5 CNone CNone 0%Qc CNone in
  let st2 := delete_transaction st1 (next_id imported_db) in
  ~ In (next_id imported_db) (map id (table imported_db)) /\
  table st2 = table imported_db /\
  next_id st2 = next_id imported_db + 1 /\
  (forall d' de' ca' a' ac',
     ~ In (next_id imported_db)
          (map id (table (insert_transaction st2 d' de' ca' a' ac')))).
Proof.
  apply (insert_delete_round_trip imported_db 5 CNone CNone 0%Qc CNone).
  split; [vm_compute; repeat constructor; simpl; intuition discriminate|].
  repeat constructor.
Defined.

(** X5. [update_transaction] rewrites the one row that carries the
    identifier, which keeps its identifier and its place, with an account
    that is [None] or empty replaced by ["Cash"]; for an identifier that no
    row carries it changes nothing. *)
Theorem update_transaction_spec
    (st : db) (tid : Z) (d : date) (de ca : cell) (a : Qc) (ac : cell) :
  store_ok st ->
  (In tid (map id (table st)) ->
     exists l1 t l2,
       table st = l1 ++ t :: l2 /\ id t = tid /\
       table (update_transaction st tid d de ca a ac)
       = l1 ++ mkTransaction tid d (sql_text de) (sql_text ca) a
                 (sql_text (py_or ac (CText "Cash"))) :: l2) /\
  (~ In tid (map id (table st)) -> update_transaction st tid d de ca a ac = st) /\
  (ac = CNone \/ ac = CText "" ->
     forall t, In t (table (update_transaction st tid d de ca a ac)) ->
               id t = tid -> account t = Some "Cash"%string).
Proof.
  intros [Hnd Hlt]. split; [|split].
  - intros Hin.
    destruct (split_by_id _ _ Hnd Hin) as (l1 & t & l2 & Hl & Ht & H1 & H2).
    exists l1, t, l2. repeat split; auto.
    unfold update_transaction. cbn [table]. rewrite Hl, map_app.
    cbn [map]. rewrite Ht, Z.eqb_refl.
    now rewrite !map_other_ids.
  - intros Hn. unfold update_transaction.
    rewrite map_other_ids by now apply absent_id. now destruct st.
  - intros Hac t Hin Hid. unfold update_transaction in Hin. cbn [table] in Hin.
    apply in_map_iff in Hin. destruct Hin as [t0 [He Hin]].
    destruct (Z.eqb_spec (id t0) tid) as [He0 | Hne0].
    + subst t. cbn [account]. destruct Hac as [-> | ->]; reflexivity.
    + subst t0. contradiction.
Qed.

(** The imported store meets the hypothesis of X5. *)
Lemma update_transaction_spec_witness :
  let st := imported_db in
  let st' := update_transaction st 2 7 (CText "Tea") (CText "Food") 1%Qc (CText "") in
  (In 2 (map id (table st)) ->
     exists l1 t l2,
       table st = l1 ++ t :: l2 /\ id t = 2 /\
       table st'
       = l1 ++ mkTransaction 2 7 (sql_text (CText "Tea")) (sql_text (CText "Food")) 1%Qc
                 (sql_text (py_or (CText "") (CText "Cash"))) :: l2) /\
  (~ In 2 (map id (table st)) -> st' = st) /\
  (CText "" = CNone \/ CText "" = CText "" ->
     forall t, In t (table st') -> id t = 2 -> account t = Some "Cash"%string).
Proof.
  apply (update_transaction_spec imported_db 2 7 (CText "Tea") (CText "Food")
           1%Qc (CText "")).
  split; [vm_compute; repeat constructor; simpl; intuition discriminate|].
  repeat constructor.
Defined.

(* ------------------------------------------------------------------ *)
(** * The settings store *)

Lemma select_value_app (k : string) (s1 s2 : settings) :
  select_value k (s1 ++ s2)
  = match select_value k s1 with
    | Some v => Some v
    | None => select_value k s2
    end.
Proof.
  induction s1 as [|[k' v'] s1 IH]; simpl; [reflexivity|].
  now destruct (String.eqb k' k).
Qed.

Lemma select_value_removed (key : string) (s : settings) :
  select_value key (filter (fun kv => negb (String.eqb (fst kv) key)) s) = None.
Proof.
  induction s as [|[k v] s IH]; simpl; [reflexivity|].
  destruct (String.eqb k key) eqn:E; simpl; [assumption|]. now rewrite E.
Qed.

Lemma select_value_other (key k : string) (s : settings) :
  k <> key ->
  select_value k (filter (fun kv => negb (String.eqb (fst kv) key)) s)
  = select_value k s.
Proof.
  intros Hne. induction s as [|[k' v] s IH]; simpl; [reflexivity|].
  destruct (String.eqb_spec k' key) as [-> | Hk]; simpl.
  - destruct (String.eqb_spec key k); [congruence | assumption].
  - now rewrite IH.
Qed.

Lemma select_value_None (key : string) (s : settings) :
  select_value key s = None <-> ~ In key (map fst s).
Proof.
  induction s as [|[k v] s IH]; simpl; [tauto|].
  destruct (String.eqb_spec k key) as [-> | Hk].
  - split; [discriminate | intros Hn; exfalso; auto].
  - rewrite IH. tauto.
Qed.

Lemma replace_into_select (key : string) (v : option string) (s : settings) :
  select_value key (replace_into key v s) = Some v.
Proof.
  unfold replace_into. rewrite select_value_app, select_value_removed.
  simpl. now rewrite String.eqb_refl.
Qed.

(** X6. [init_db] writes the default ["0"] only when no initial balance is
    stored: a stored balance survives it, other keys are not touched,
    running it twice is running it once, and the key stays unique. *)
Theorem init_db_keeps_settings (s : settings) :
  (forall v, select_value "initial_balance" s = Some v -> init_db s = s) /\
  (select_value "initial_balance" s = None ->
     select_value "initial_balance" (init_db s) = Some (Some "0"%string)) /\
  init_db (init_db s) = init_db s /\
  (forall k, k <> "initial_balance"%string ->
     select_value k (init_db s) = select_value k s) /\
  (primary_key s -> primary_key (init_db s)).
Proof.
  unfold init_db, insert_or_ignore.
  destruct (select_value "initial_balance" s) as [v|] eqn:Hsel.
  - rewrite Hsel. repeat split; auto. discriminate.
  - assert (Hnew : select_value "initial_balance"
                     (s ++ [("initial_balance"%string, Some "0"%string)])
                   = Some (Some "0"%string)).
    { rewrite select_value_app, Hsel. reflexivity. }
    rewrite Hnew. repeat split; auto.
    + discriminate.
    + intros k Hk. rewrite select_value_app.
      destruct (select_value k s); [reflexivity|]. cbn [select_value].
      destruct (String.eqb_spec "initial_balance" k); [congruence | reflexivity].
    + unfold primary_key. intros Hnd. rewrite map_app. simpl.
      apply NoDup_app; [assumption | repeat constructor; auto |].
      intros x Hx [<- | []]. now apply select_value_None in Hsel.
Qed.

(** X7. After [set_initial_balance(v)] the stored text is [str(v)],
    whatever was stored before, so that [get_initial_balance()] returns
    [float(str(v))]; [init_db] no longer changes the table, other keys are
    not touched and the key stays unique. *)
Theorem set_then_get_initial_balance
    (py_str : Qc -> string) (py_float_text : string -> option Qc)
    (v : Qc) (s : settings) :
  let s' := set_initial_balance py_str v s in
  select_value "initial_balance" s' = Some (Some (py_str v)) /\
  get_initial_balance py_float_text s' = py_float_text (py_str v) /\
  init_db s' = s' /\
  (forall k, k <> "initial_balance"%string ->
     select_value k s' = select_value k s) /\
  (primary_key s -> primary_key s').
Proof.
  intros s'. subst s'. unfold set_initial_balance.
  pose proof (replace_into_select "initial_balance" (Some (py_str v)) s) as Hsel.
  split; [exact Hsel|]. split; [|split; [|split]].
  - unfold get_initial_balance. now rewrite Hsel.
  - unfold init_db, insert_or_ignore. now rewrite Hsel.
  - intros k Hk. unfold replace_into. rewrite select_value_app.
    rewrite select_value_other by assumption.
    destruct (select_value k s); [reflexivity|]. cbn [select_value].
    destruct (String.eqb_spec "initial_balance" k); [congruence | reflexivity].
  - unfold primary_key, replace_into. intros Hnd. rewrite map_app. cbn [map fst].
    clear Hsel. apply NoDup_app.
    + induction s as [|[k x] s IH]; cbn [filter map fst]; [constructor|].
      cbn [map fst] in Hnd.
      inversion Hnd as [|? ? Hnotin Hnd']; subst.
      destruct (String.eqb k "initial_balance"); cbn [negb map fst];
        [now apply IH|].
      constructor; [|now apply IH].
      intros Hin. apply Hnotin. apply in_map_iff in Hin.
      destruct Hin as [kv [He Hin]]. apply filter_In in Hin.
      apply in_map_iff. exists kv. tauto.
    + repeat constructor. auto.
    + intros x Hx [<- | []].
      pose proof (select_value_removed "initial_balance" s) as Hr.
      now apply select_value_None in Hr.
Qed.

(** X8. Without a stored row, or with a [NULL] value,
    [get_initial_balance()] is 0 and does not call [float]; on a database
    that [init_db] has just created it is [float("0")]. *)
Theorem get_initial_balance_default
    (py_float_text : string -> option Qc) (s : settings) :
  (select_value "initial_balance" s = None ->
     get_initial_balance py_float_text s = Some 0%Qc /\
     get_initial_balance py_float_text (init_db s) = py_float_text "0"%string) /\
  (select_value "initial_balance" s = Some None ->
     get_initial_balance py_float_text s = Some 0%Qc /\
     get_initial_balance py_float_text (init_db s) = Some 0%Qc).
Proof.
  unfold get_initial_balance, init_db, insert_or_ignore. split; intros Hsel.
  - rewrite Hsel. split; [reflexivity|].
    rewrite select_value_app, Hsel. reflexivity.
  - rewrite Hsel. split; [reflexivity|]. now rewrite Hsel.
Qed.

(** Two optional rationals with the same fraction in lowest terms are
    the same. *)
Lemma same_fraction (o : option Qc) (q : Qc) :
  option_map this o = Some (this q) -> o = Some q.
Proof.
  destruct o as [x|]; [|discriminate]. intros [= Hx].
  f_equal. apply Qc_is_canon. now rewrite Hx.
Qed.



(* ------------------------------------------------------------------ *)
(** * More on [compute_kpis] *)

Lemma of_Z_this (z : Z) : (this (Num.of_Z z) == inject_Z z)%Q.
Proof. exact (Qred_correct (inject_Z z)). Qed.

Lemma of_Z_succ (z : Z) : (Num.of_Z z + 1)%Qc = Num.of_Z (z + 1).
Proof.
  apply Qc_is_canon. unfold Qcplus, Num.of_Z, Q2Qc, this.
  rewrite !Qred_correct. rewrite inject_Z_plus. reflexivity.
Qed.



(** X10. A runway that [compute_kpis] returns is never negative and comes
    with a negative burn rate.  With a positive balance it is the whole
    part of the float quotient [q] of the balance by the burn,
    [n <= q < n + 1]; otherwise it is 0. *)
Theorem compute_kpis_runway_bounds
    (df : DataFrame) (initial_balance : Qc) (c c' : Clock) (k : KPI) :
  compute_kpis df initial_balance c = Some (k, c') ->
  forall n, runway_days k = Some n ->
    0 <= n /\
    Num.fneg (avg_daily_burn k) = true /\
    ((0 < current_balance k)%Qc ->
       exists q,
         Num.float_div (Num.round64 (current_balance k))
                       (Num.fopp (avg_daily_burn k)) = Num.Finite q /\
         (Num.of_Z n <= q)%Qc /\ (q < Num.of_Z n + 1)%Qc) /\
    (~ (0 < current_balance k)%Qc -> n = 0).
Proof.
  intros Hrun n Hn.
  pose proof (compute_kpis_runway_rule _ _ _ _ _ Hrun) as Hrule.
  unfold runway_rule, runway_of in Hrule. rewrite Hn in Hrule.
  destruct (Num.fneg (avg_daily_burn k)) eqn:Hburn; [|discriminate].
  destruct (Num.ltb 0%Qc (current_balance k)) eqn:Hbal.
  - apply ltb_lt in Hbal.
    destruct (Num.float_div _ _) as [q| |] eqn:Hq; try discriminate.
    cbn [Num.py_int_float option_map] in Hrule. injection Hrule as Hn'.
    pose proof (runway_quotient_nonneg _ _ _ Hbal Hburn Hq) as Hq0.
    rewrite (py_int_floor q Hq0) in Hn'.
    assert (Hlo : (Num.of_Z n <= q)%Qc).
    { unfold Qcle. rewrite of_Z_this, <- Hn'. apply Qfloor_le. }
    assert (Hhi : (q < Num.of_Z n + 1)%Qc).
    { rewrite of_Z_succ. unfold Qclt. rewrite of_Z_this, <- Hn'. apply Qlt_floor. }
    repeat split.
    + rewrite <- Hn'. change 0 with (Qfloor 0). now apply Qfloor_resp_le.
    + intros _. exists q. auto.
    + intros Hno. contradiction.
  - apply ltb_nlt in Hbal. injection Hrule as Hn'. subst n.
    repeat split; try lia; intros; contradiction.
Qed.

(** The burning ledger: 14 days, and 14 <= 700 / 50 < 15. *)
Lemma compute_kpis_runway_bounds_witness :
  exists k c',
    compute_kpis rent_only (Num.of_Z 1000) (const_clock (ymd2ord 2024 1 25))
    = Some (k, c') /\
    runway_days k = Some 14 /\
    0 <= 14 /\
    Num.fneg (avg_daily_burn k) = true /\
    ((0 < current_balance k)%Qc ->
       exists q,
         Num.float_div (Num.round64 (current_balance k))
                       (Num.fopp (avg_daily_burn k)) = Num.Finite q /\
         (Num.of_Z 14 <= q)%Qc /\ (q < Num.of_Z 14 + 1)%Qc) /\
    (~ (0 < current_balance k)%Qc -> 14 = 0).
Proof.
  eexists _, _. split; [vm_compute; reflexivity|]. split; [reflexivity|].
  apply (compute_kpis_runway_bounds rent_only (Num.of_Z 1000)
           (const_clock (ymd2ord 2024 1 25)) (const_clock (ymd2ord 2024 1 25))).
  - reflexivity.
  - reflexivity.
Defined.


(** X23. Whenever [compute_kpis] returns, [runway_days] is present
    exactly when [avg_daily_burn < 0]; it is then the floor of the float
    quotient [current_balance / -avg_daily_burn] if [current_balance > 0]
    and [0] otherwise; whenever [avg_daily_burn >= 0], the empty snapshot
    included, it is absent. *)
Theorem compute_kpis_runway
    (df : DataFrame) (initial_balance : Qc) (c c' : Clock) (k : KPI) :
  compute_kpis df initial_balance c = Some (k, c') ->
  let burning := Num.fneg (avg_daily_burn k) = true in
  ((exists n, runway_days k = Some n) <-> burning) /\
  (burning -> (0 < current_balance k)%Qc ->
     exists q,
       Num.float_div (Num.round64 (current_balance k))
                     (Num.fopp (avg_daily_burn k)) = Num.Finite q /\
       runway_days k = Some (Qfloor q)) /\
  (burning -> ~ (0 < current_balance k)%Qc -> runway_days k = Some 0) /\
  (~ burning -> runway_days k = None).
Proof.
  intros Hrun burning. subst burning.
  pose proof (compute_kpis_runway_rule _ _ _ _ _ Hrun) as Hrule.
  unfold runway_rule, runway_of in Hrule.
  destruct (Num.fneg (avg_daily_burn k)) eqn:Hburn.
  - destruct (Num.ltb 0%Qc (current_balance k)) eqn:Hbal.
    + apply ltb_lt in Hbal.
      destruct (Num.float_div _ _) as [q| |] eqn:Hq; try discriminate.
      cbn [Num.py_int_float option_map] in Hrule. injection Hrule as Hrw.
      rewrite (py_int_floor q) in Hrw
        by exact (runway_quotient_nonneg _ _ _ Hbal Hburn Hq).
      repeat split; intros; eauto; try contradiction; try discriminate.
    + apply ltb_nlt in Hbal. injection Hrule as Hrw.
      repeat split; intros; eauto; try contradiction; try discriminate.
  - injection Hrule as Hrw.
    repeat split; intros; auto; try discriminate.
    destruct H as [n Hn]. congruence.
Qed.

(** The run on the burning ledger: 300 spent over six days, 700 left,
    14 days to go. *)
Lemma compute_kpis_runway_witness :
  exists k c',
    compute_kpis rent_only (Num.of_Z 1000) (const_clock (ymd2ord 2024 1 25))
    = Some (k, c') /\
    let burning := Num.fneg (avg_daily_burn k) = true in
    ((exists n, runway_days k = Some n) <-> burning) /\
    (burning -> (0 < current_balance k)%Qc ->
       exists q,
         Num.float_div (Num.round64 (current_balance k))
                       (Num.fopp (avg_daily_burn k)) = Num.Finite q /\
         runway_days k = Some (Qfloor q)) /\
    (burning -> ~ (0 < current_balance k)%Qc -> runway_days k = Some 0) /\
    (~ burning -> runway_days k = None).
Proof.
  eexists _, _. split; [vm_compute; reflexivity|].
  apply (compute_kpis_runway rent_only (Num.of_Z 1000)
           (const_clock (ymd2ord 2024 1 25)) (const_clock (ymd2ord 2024 1 25))).
  reflexivity.
Defined.

(* ------------------------------------------------------------------ *)
(** * More on the aggregations *)

Lemma positive_total_nonneg (l : DataFrame) :
  (0 <= total (amounts (filter (fun r => Num.ltb 0%Qc (amount r)) l)))%Qc.
Proof.
  induction l as [|r l IH]; simpl; [apply Qcle_refl|].
  destruct (Num.ltb 0%Qc (amount r)) eqn:E; [|assumption].
  apply ltb_lt, Qclt_le_weak in E. simpl.
  rewrite <- (Qcplus_0_l 0). now apply Qcplus_le_compat.
Qed.

Lemma negative_total_nonpos (l : DataFrame) :
  (total (amounts (filter (fun r => Num.ltb (amount r) 0%Qc) l)) <= 0)%Qc.
Proof.
  induction l as [|r l IH]; simpl; [apply Qcle_refl|].
  destruct (Num.ltb (amount r) 0%Qc) eqn:E; [|assumption].
  apply ltb_lt, Qclt_le_weak in E. simpl.
  rewrite <- (Qcplus_0_l 0). now apply Qcplus_le_compat.
Qed.

(** X16. In every row of [monthly_flows] the [inflow] is not negative and
    the [outflow] is not positive. *)
Theorem monthly_flows_signs (df : DataFrame) :
  Forall (fun row => (0 <= inflow row)%Qc /\ (outflow row <= 0)%Qc)
         (monthly_flows df).
Proof.
  apply Forall_forall. intros row Hin.
  destruct (monthly_flows_row df row Hin) as (Hi & Ho & _).
  rewrite Hi, Ho.
  split; [apply positive_total_nonneg | apply negative_total_nonpos].
Qed.

(* ------------------------------------------------------------------ *)
(** * The category filter of the transactions tab *)

Lemma unique_fold_spec (l seen : list string) :
  NoDup seen ->
  let out := fold_left (fun seen x => if existsb (String.eqb x) seen then seen
                                      else seen ++ [x]) l seen in
  NoDup out /\ forall x, In x out <-> In x seen \/ In x l.
Proof.
  revert seen. induction l as [|a l IH]; intros seen Hnd; cbn [fold_left].
  - split; [assumption | intros x; simpl; tauto].
  - destruct (existsb (String.eqb a) seen) eqn:E.
    + destruct (IH seen Hnd) as [H1 H2]. split; [assumption|].
      intros x. rewrite H2. simpl. split; [tauto|].
      intros [Hx | [<- | Hx]]; auto. left.
      apply existsb_exists in E. destruct E as [y [Hy He]].
      apply String.eqb_eq in He. now subst y.
    + assert (Hnd' : NoDup (seen ++ [a])).
      { apply NoDup_app; [assumption | repeat constructor; auto |].
        intros x Hx [<- | []].
        assert (existsb (String.eqb a) seen = true); [|congruence].
        apply existsb_exists. exists a. split; [assumption | apply String.eqb_refl]. }
      destruct (IH _ Hnd') as [H1 H2]. split; [assumption|].
      intros x. rewrite H2, in_app_iff. simpl. tauto.
Qed.

Lemma unique_spec (l : list string) :
  NoDup (unique l) /\ forall x, In x (unique l) <-> In x l.
Proof.
  destruct (unique_fold_spec l [] (NoDup_nil _)) as [H1 H2].
  split; [exact H1|]. intros x. unfold unique. rewrite H2. simpl. tauto.
Qed.

Lemma dropna_category_column (df : DataFrame) :
  dropna (map category df) = map fst (dropna_category df).
Proof.
  induction df as [|r df IH]; simpl; [reflexivity|].
  destruct (category r); simpl; now rewrite IH.
Qed.

Lemma string_leb_total (a b : string) :
  String.leb a b = true \/ String.leb b a = true.
Proof. apply String.leb_total. Qed.

Lemma string_leb_klt (a b : string) :
  String.leb a b = true -> a <> b -> klt a b.
Proof.
  unfold String.leb, klt. simpl. intros Hle Hne.
  destruct (String.compare a b) eqn:E; try discriminate; [|reflexivity].
  apply String.compare_eq_iff in E. contradiction.
Qed.

Lemma string_leb_trans (a b c : string) :
  String.leb a b = true -> String.leb b c = true -> String.leb a c = true.
Proof.
  intros Hab Hbc.
  destruct (String.eqb_spec a b) as [-> | Hne1]; [assumption|].
  destruct (String.eqb_spec b c) as [<- | Hne2]; [assumption|].
  pose proof (klt_trans _ _ _ (string_leb_klt _ _ Hab Hne1)
                (string_leb_klt _ _ Hbc Hne2)) as Hlt.
  unfold klt in Hlt. simpl in Hlt. unfold String.leb. now rewrite Hlt.
Qed.

Lemma sorted_strings_ascending (l : list string) :
  NoDup l -> ascending (sort_values String.leb l).
Proof.
  intros Hnd.
  assert (Hp : Permutation (sort_values String.leb l) l) by apply sort_values_perm.
  assert (Hnd' : NoDup (sort_values String.leb l)).
  { apply (Permutation_NoDup (Permutation_sym Hp) Hnd). }
  assert (Hs : StronglySorted (le_prop String.leb) (sort_values String.leb l)).
  { apply Sorted_StronglySorted.
    - intros a b c. apply string_leb_trans.
    - apply sort_values_Sorted, string_leb_total. }
  clear Hp Hnd. induction Hs as [|a s Hs IH Hall]; [constructor|].
  inversion Hnd' as [|? ? Hnotin Hnd'']; subst.
  constructor; [now apply IH|].
  apply Forall_forall. intros x Hx. rewrite Forall_forall in Hall.
  apply string_leb_klt; [now apply Hall|]. intros ->. contradiction.
Qed.

(** X18. The categories that the filter of the transactions tab offers
    are the categories of [category_breakdown]: each category carried by
    some record once, in ascending order, and no entry for the records
    without category. *)
Theorem cats_are_breakdown_categories (df : DataFrame) :
  ascending (cats df) /\
  (forall c, In c (cats df) <-> In c (map fst (category_breakdown df))) /\
  (forall c, In c (cats df) <-> exists r, In r df /\ category r = Some c).
Proof.
  assert (Hcats : forall c, In c (cats df) <-> In c (map fst (dropna_category df))).
  { intros c. unfold cats. destruct df as [|r rs]; [simpl; tauto|].
    cbn [df_empty]. rewrite <- dropna_category_column.
    transitivity (In c (unique (dropna (map category (r :: rs))))).
    - split; apply Permutation_in;
        [apply sort_values_perm | apply Permutation_sym, sort_values_perm].
    - apply unique_spec. }
  split; [|split].
  - unfold cats. destruct df as [|r rs]; [constructor|]. cbn [df_empty].
    apply sorted_strings_ascending. apply unique_spec.
  - intros c. rewrite Hcats.
    rewrite <- (groupby_sum_keys fst snd (dropna_category df) c).
    split; apply Permutation_in; apply Permutation_map;
      [apply Permutation_sym |]; apply category_breakdown_perm.
  - intros c. rewrite Hcats. apply dropna_category_keys.
Qed.

(* ------------------------------------------------------------------ *)
(** * More on the CSV import *)

(** X19. An import stops at the first row whose amount does not convert:
    the rows before it have each created their transaction and stay
    stored, the failing row and the rows after it create nothing. *)
Theorem import_rows_stops_at_failure
    (st : db) (pre post : list csv_row) (bad : csv_row) :
  Forall parsed pre -> py_float (r_amount bad) = None ->
  exists created,
    import_rows st (pre ++ bad :: post)
    = ({| next_id := next_id st + Z.of_nat (List.length pre);
          table := table st ++ created |}, false) /\
    Forall2 created_from pre created.
Proof.
  intros Hall Hbad. revert st.
  induction Hall as [|r rows [q Hq] Hrows IH]; intros st.
  - exists []. cbn [app import_rows]. rewrite Hbad.
    cbn [List.length Z.of_nat]. rewrite Z.add_0_r, app_nil_r.
    destruct st. split; [reflexivity | constructor].
  - cbn [app import_rows]. rewrite Hq. cbn [py_float].
    destruct (IH (insert_transaction st (r_date r)
                    (py_or (r_description r) (CText ""))
                    (py_or (r_category r) (CText "Autre")) q
                    (py_or (get_account r) (CText "Cash"))))
      as (created & Hrun & Hcr).
    rewrite Hrun. cbn [insert_transaction next_id table].
    eexists (_ :: created). split.
    + f_equal. f_equal; [|now rewrite <- app_assoc].
      cbn [List.length]. lia.
    + constructor; [|exact Hcr]. now apply insert_created.
Qed.

(** The example file with a row without amount between its two rows. *)
Lemma import_rows_stops_at_failure_witness :
  exists created,
    import_rows empty_db
      ([hd (mkRow 0 CNone CNone ABad None) csv_example]
       ++ mkRow (ymd2ord 2024 2 2) (CText "Milk") (CText "Food") ANaN None
       :: tl csv_example)
    = ({| next_id := next_id empty_db + Z.of_nat 1;
          table := table empty_db ++ created |}, false) /\
    Forall2 created_from [hd (mkRow 0 CNone CNone ABad None) csv_example] created.
Proof.
  apply (import_rows_stops_at_failure empty_db
           [hd (mkRow 0 CNone CNone ABad None) csv_example] (tl csv_example)
           (mkRow (ymd2ord 2024 2 2) (CText "Milk") (CText "Food") ANaN None)).
  - repeat constructor. eexists. reflexivity.
  - reflexivity.
Defined.

(* ------------------------------------------------------------------ *)
(** * The table of the transactions tab *)

Lemma date_id_geb_total (a b : transaction) :
  date_id_leb b a = true \/ date_id_leb a b = true.
Proof. apply date_id_leb_total. Qed.

(** X21. With the widgets at their defaults (the period from the earliest
    to the latest date, no category selected, no search text) the table of
    the transactions tab shows every transaction once, the latest date
    first and, within a date, the highest identifier first. *)
Theorem transactions_view_default
    (contains : string -> string -> bool) (df : DataFrame) (d1 d2 : date) :
  is_min d1 (dates df) -> is_max d2 (dates df) ->
  let v := transactions_view contains df d1 d2 [] "" in
  Permutation v df /\ StronglySorted (fun a b => by_date_id b a) v.
Proof.
  intros [_ Hmin] [_ Hmax] v. subst v. unfold transactions_view.
  assert (Hall : filter (fun r => (d1 <=? t_date r) && (t_date r <=? d2)) df = df).
  { apply forallb_filter_id. apply forallb_forall. intros r Hr.
    rewrite Forall_forall in Hmin, Hmax.
    assert (Hd : In (t_date r) (dates df)) by (unfold dates; now apply in_map).
    specialize (Hmin _ Hd). specialize (Hmax _ Hd).
    apply andb_true_iff. rewrite !Z.leb_le. lia. }
  cbn [String.eqb]. rewrite Hall.
  assert (Hsame : (if df_empty df then df else df) = df) by now destruct (df_empty df).
  rewrite Hsame. split; [apply sort_values_perm|].
  apply Sorted_StronglySorted.
  - intros a b c Hab Hbc. now apply by_date_id_trans with b.
  - apply (Sorted_le_prop (fun a b => date_id_leb b a)).
    + intros a b. apply date_id_leb_spec.
    + apply sort_values_Sorted. intros a b. apply date_id_leb_total.
Qed.

Lemma transactions_view_default_witness :
  let v := transactions_view (fun _ _ => false) spec_example
             (ymd2ord 2024 1 5) (ymd2ord 2024 1 20) [] "" in
  Permutation v spec_example /\ StronglySorted (fun a b => by_date_id b a) v.
Proof.
  apply (transactions_view_default (fun _ _ => false) spec_example
           (ymd2ord 2024 1 5) (ymd2ord 2024 1 20)).
  - split; [vm_compute; tauto | repeat constructor; vm_compute; discriminate].
  - split; [vm_compute; tauto | repeat constructor; vm_compute; discriminate].
Defined.
